(** * Megaplot: the removal batch task [runRemoval]

    A shallow embedding of [src/lib/tasks/run-removal.ts] together with the
    small part of the coordinator state it reads and writes.  JavaScript
    numbers used as array indices, step counters and millisecond timestamps
    are modelled as integers ([Z]), so NaN and fractional values are left
    out; so are the attribute values of a swatch.  The callbacks handed to
    the task ([remaining], [queueRemovalTask], [queueTextureSync]) are
    modelled by the values they return and by an event trace of the calls
    made.  [runRemoval] takes its arguments in the order
    [TransitionTimeMs remaining stepsBetweenChecks coordinator]: the getter
    of the view comes first, and the coordinator last. *)

From Stdlib Require Import ZArith Lia String.
From stdpp Require Import base decidable option list list_numbers.

Local Open Scope Z_scope.

(** ** Lifecycle phases *)

(** Modelled from the spec: the enum of [lib/lifecycle-phase], which the task
    imports but which is not among the sources.  The phases are the ones of
    the lifecycle chain of the data model. *)
Inductive LifecyclePhase :=
| Created
| HasCallback
| NeedsRebase
| NeedsTextureSync
| Rest.

#[global] Instance LifecyclePhase_eq_dec : EqDecision LifecyclePhase.
Proof. solve_decision. Defined.

(** Modelled from the spec: the legal-transition table
    [Created -> HasCallback -> NeedsRebase -> NeedsTextureSync -> Rest ->
     (on exit) Rest[toBeRemoved] -> NeedsTextureSync (zeroed) -> Created]. *)
Definition legalTransition (from to : LifecyclePhase) : bool :=
  match from, to with
  | Created, HasCallback => true
  | HasCallback, NeedsRebase => true
  | NeedsRebase, NeedsTextureSync => true
  | NeedsTextureSync, Rest => true
  | Rest, NeedsTextureSync => true
  | NeedsTextureSync, Created => true
  | _, _ => false
  end.

(** ** Dirty ranges *)

Module NumericRange.

(** Modelled from the spec: the class of [lib/numeric-range], which is not
    among the sources.  A range is either undefined or a pair of bounds;
    [expandToInclude] initialises or widens it, [clear] resets it, and the
    bounds cannot be read while it is undefined. *)
Inductive t :=
| Undefined
| Bounds (low high : Z).

(** Modelled from the spec: [isDefined] of the missing class, which reports
    whether a value has been included since the last clear. *)
Definition isDefined (r : t) : bool :=
  match r with
  | Undefined => false
  | Bounds _ _ => true
  end.

(** Modelled from the spec: [clear] of the missing class, which resets the
    range to undefined. *)
Definition clear (r : t) : t := Undefined.

(** Modelled from the spec: [expandToInclude] of the missing class, which
    initialises the bounds of an undefined range and widens those of a
    defined one. *)
Definition expandToInclude (value : Z) (r : t) : t :=
  match r with
  | Undefined => Bounds value value
  | Bounds low high => Bounds (Z.min low value) (Z.max high value)
  end.

(** Modelled from the spec: [lowBound] and [highBound] of the missing class,
    which fail (here [None]) when read while the range is undefined. *)
Definition lowBound (r : t) : option Z :=
  match r with
  | Undefined => None
  | Bounds low _ => Some low
  end.

Definition highBound (r : t) : option Z :=
  match r with
  | Undefined => None
  | Bounds _ high => Some high
  end.

(** A value is represented by a range when it lies between its bounds. *)
Definition contains (r : t) (value : Z) : Prop :=
  match r with
  | Undefined => False
  | Bounds low high => low <= value <= high
  end.

End NumericRange.

Import NumericRange.
Abbreviation NumericRange := NumericRange.t.

(** ** Sprites *)

(** The view of a sprite over its swatch of attribute memory: the
    [DataViewSymbol] property is the underlying array of attribute values. *)
Record SpriteView := { DataView : list Z }.

(** [properties.spriteView[DataViewSymbol].fill(0)] *)
Definition fill0 (view : SpriteView) : SpriteView :=
  {| DataView := map (fun _ => 0) (DataView view) |}.

(** The [InternalPropertiesSymbol] record of a sprite, restricted to the
    fields the task touches.  A [SpriteImpl] is identified with it. *)
Record InternalProperties := {
  toBeRemoved : bool;
  lifecyclePhase : LifecyclePhase;
  spriteView : option SpriteView;
  index : option Z;
  zeroed : bool;
}.

Abbreviation SpriteImpl := InternalProperties.

(** The three assignments of the removal proper:
    [properties.spriteView[DataViewSymbol].fill(0); properties.zeroed = true;
     properties.lifecyclePhase = LifecyclePhase.NeedsTextureSync]. *)
Definition flash (properties : SpriteImpl) (view : SpriteView) : SpriteImpl :=
  {| toBeRemoved := toBeRemoved properties;
     lifecyclePhase := NeedsTextureSync;
     spriteView := Some (fill0 view);
     index := index properties;
     zeroed := true |}.

(** ** The coordinator *)

(** The [CoordinatorAPI] interface.  [elapsedTimeMs] is the reading the clock
    gives to this invocation; the two queueing hooks have no state of their
    own here, their calls are recorded in the trace. *)
Record CoordinatorAPI := {
  elapsedTimeMs : Z;
  needsTextureSyncIndexRange : NumericRange;
  sprites : list SpriteImpl;
  toBeRemovedIndexRange : NumericRange;
  toBeRemovedTsRange : NumericRange;
}.

(** What an invocation does that is visible from outside or needed to speak
    about it: the indices the main loop and the cleanup loop went through,
    what they did there, the calls to [remaining] with the value returned,
    and the calls to the queueing hooks. *)
Inductive Event :=
| Visit (currentIndex : Z)
| Defer (currentIndex ts : Z)
| Flash (currentIndex : Z)
| Poll (value : Z)
| Scan (i : Z)
| Readd (i ts : Z)
| queueRemovalTask
| queueTextureSync.

#[global] Instance Event_eq_dec : EqDecision Event.
Proof. solve_decision. Defined.

Inductive Error :=
| InternalError (message : string)
| TypeError.

(** How an invocation ends.  [OutOfFuel] is an artefact of the bounded
    recursion of the model; [runRemoval_fuel] shows it never happens. *)
Inductive Outcome :=
| Returned
| Threw (e : Error)
| OutOfFuel.

Record Result := {
  final : CoordinatorAPI;
  outcome : Outcome;
  trace : list Event;
}.

(** The indices at which the trace records each kind of step. *)
Definition visited (t : list Event) : list Z :=
  omap (fun e => match e with Visit i => Some i | _ => None end) t.

Definition flashed (t : list Event) : list Z :=
  omap (fun e => match e with Flash i => Some i | _ => None end) t.

Definition scanned (t : list Event) : list Z :=
  omap (fun e => match e with Scan i => Some i | _ => None end) t.

Definition readded (t : list Event) : list Z :=
  omap (fun e => match e with Readd i _ => Some i | _ => None end) t.

(** [coordinator.sprites[i]]: [undefined] outside the array. *)
Definition spriteAt (c : CoordinatorAPI) (i : Z) : option SpriteImpl :=
  if decide (0 <= i) then sprites c !! Z.to_nat i else None.

Definition setSprite (i : Z) (p : SpriteImpl) (c : CoordinatorAPI) : CoordinatorAPI :=
  {| elapsedTimeMs := elapsedTimeMs c;
     needsTextureSyncIndexRange := needsTextureSyncIndexRange c;
     sprites := <[Z.to_nat i := p]> (sprites c);
     toBeRemovedIndexRange := toBeRemovedIndexRange c;
     toBeRemovedTsRange := toBeRemovedTsRange c |}.

Definition setNeedsTextureSyncIndexRange (r : NumericRange) (c : CoordinatorAPI) : CoordinatorAPI :=
  {| elapsedTimeMs := elapsedTimeMs c;
     needsTextureSyncIndexRange := r;
     sprites := sprites c;
     toBeRemovedIndexRange := toBeRemovedIndexRange c;
     toBeRemovedTsRange := toBeRemovedTsRange c |}.

Definition setToBeRemovedRanges (ri rt : NumericRange) (c : CoordinatorAPI) : CoordinatorAPI :=
  {| elapsedTimeMs := elapsedTimeMs c;
     needsTextureSyncIndexRange := needsTextureSyncIndexRange c;
     sprites := sprites c;
     toBeRemovedIndexRange := ri;
     toBeRemovedTsRange := rt |}.

(** [toBeRemovedIndexRange.expandToInclude(i); toBeRemovedTsRange.expandToInclude(ts)] *)
Definition expandToBeRemoved (i ts : Z) (c : CoordinatorAPI) : CoordinatorAPI :=
  setToBeRemovedRanges (expandToInclude i (toBeRemovedIndexRange c))
                       (expandToInclude ts (toBeRemovedTsRange c)) c.

(** The sprite is one the task is responsible for: the negation of the test
    [!properties.toBeRemoved || properties.lifecyclePhase !== LifecyclePhase.Rest]. *)
Definition pending (p : SpriteImpl) : bool :=
  toBeRemoved p && bool_decide (lifecyclePhase p = Rest).

(** [step % stepsBetweenChecks === 0] on integers: the remainder takes the
    sign of the dividend, and is NaN (so the test fails) for a zero divisor. *)
Definition remIsZero (step stepsBetweenChecks : Z) : bool :=
  if stepsBetweenChecks =? 0 then false else Z.rem step stepsBetweenChecks =? 0.

(** The coordinator at a later reading of the clock. *)
Definition atTime (now : Z) (c : CoordinatorAPI) : CoordinatorAPI :=
  {| elapsedTimeMs := now;
     needsTextureSyncIndexRange := needsTextureSyncIndexRange c;
     sprites := sprites c;
     toBeRemovedIndexRange := toBeRemovedIndexRange c;
     toBeRemovedTsRange := toBeRemovedTsRange c |}.

Section Task.

(** The getter [spriteView.TransitionTimeMs], whose class
    ([lib/generated/sprite-view]) is not among the sources: an attribute read
    from the view. *)
Variable TransitionTimeMs : SpriteView -> Z.

(** The callback [remaining]: the value its n-th call returns (from 0). *)
Variable remaining : nat -> Z.
Variable stepsBetweenChecks : Z.

(** The variables of the [try] block besides [index]: the coordinator, the
    step counter and the number of calls made to [remaining]. *)
Record LoopState := {
  coord : CoordinatorAPI;
  step : Z;
  polls : nat;
}.

Inductive Ctl :=
| Continue
| Break
| Throw (e : Error).

(** One turn of the [while] loop, after [index++]. *)
Definition loopBody (currentTimeMs currentIndex : Z) (s : LoopState)
  : Ctl * LoopState * list Event :=
  let c := coord s in
  match spriteAt c currentIndex with
  | None => (Throw TypeError, s, [Visit currentIndex])
  | Some properties =>
    if negb (pending properties) then (Continue, s, [Visit currentIndex])
    else
      match spriteView properties, index properties with
      | Some view, Some propertiesIndex =>
        if TransitionTimeMs view >? currentTimeMs then
          (Continue,
           {| coord := expandToBeRemoved currentIndex (TransitionTimeMs view) c;
              step := step s; polls := polls s |},
           [Visit currentIndex; Defer currentIndex (TransitionTimeMs view)])
        else
          let c' :=
            setNeedsTextureSyncIndexRange
              (expandToInclude propertiesIndex (needsTextureSyncIndexRange c))
              (setSprite currentIndex (flash properties view) c) in
          if remIsZero (step s) stepsBetweenChecks then
            let value := remaining (polls s) in
            (if value <=? 0 then Break else Continue,
             {| coord := c'; step := step s + 1; polls := S (polls s) |},
             [Visit currentIndex; Flash currentIndex; Poll value])
          else
            (Continue,
             {| coord := c'; step := step s + 1; polls := polls s |},
             [Visit currentIndex; Flash currentIndex])
      | _, _ =>
        (Throw (InternalError "Sprite missing required properties"), s,
         [Visit currentIndex])
      end
  end.

(** How the [try] block was left. *)
Inductive LoopEnd :=
| Finished
| Broke
| Thrown (e : Error)
| Exhausted.

Record LoopExit := {
  exitEnd : LoopEnd;
  exitIndex : Z;
  exitState : LoopState;
  exitEvents : list Event;
}.

Definition withEvents (evs : list Event) (x : LoopExit) : LoopExit :=
  {| exitEnd := exitEnd x; exitIndex := exitIndex x; exitState := exitState x;
     exitEvents := evs ++ exitEvents x |}.

(** [while (index <= highIndex) { const currentIndex = index; index++; ... }] *)
Fixpoint mainLoop (fuel : nat) (currentTimeMs highIndex index : Z) (s : LoopState)
  : LoopExit :=
  if index <=? highIndex then
    match fuel with
    | O => {| exitEnd := Exhausted; exitIndex := index; exitState := s; exitEvents := [] |}
    | S fuel' =>
      let currentIndex := index in
      let index := index + 1 in
      match loopBody currentTimeMs currentIndex s with
      | (Continue, s', evs) =>
        withEvents evs (mainLoop fuel' currentTimeMs highIndex index s')
      | (Break, s', evs) =>
        {| exitEnd := Broke; exitIndex := index; exitState := s'; exitEvents := evs |}
      | (Throw e, s', evs) =>
        {| exitEnd := Thrown e; exitIndex := index; exitState := s'; exitEvents := evs |}
      end
    end
  else {| exitEnd := Finished; exitIndex := index; exitState := s; exitEvents := [] |}.

(** One turn of the [for] loop of the [finally] block: [None] when the turn
    completes, the error when it throws. *)
Definition cleanupBody (i : Z) (c : CoordinatorAPI)
  : option Error * CoordinatorAPI * list Event :=
  match spriteAt c i with
  | None => (Some TypeError, c, [Scan i])
  | Some properties =>
    if negb (pending properties) then (None, c, [Scan i])
    else
      match spriteView properties with
      | None => (Some (InternalError "Sprite lacks a SpriteView"), c, [Scan i])
      | Some view =>
        (None, expandToBeRemoved i (TransitionTimeMs view) c,
         [Scan i; Readd i (TransitionTimeMs view)])
      end
  end.

Record CleanupExit := {
  cleanupEnd : Outcome;
  cleanupCoord : CoordinatorAPI;
  cleanupEvents : list Event;
}.

(** [for (let i = index; i <= highIndex; i++) { ... }] *)
Fixpoint cleanupLoop (fuel : nat) (highIndex i : Z) (c : CoordinatorAPI) : CleanupExit :=
  if i <=? highIndex then
    match fuel with
    | O => {| cleanupEnd := OutOfFuel; cleanupCoord := c; cleanupEvents := [] |}
    | S fuel' =>
      match cleanupBody i c with
      | (None, c', evs) =>
        let x := cleanupLoop fuel' highIndex (i + 1) c' in
        {| cleanupEnd := cleanupEnd x; cleanupCoord := cleanupCoord x;
           cleanupEvents := evs ++ cleanupEvents x |}
      | (Some e, c', evs) =>
        {| cleanupEnd := Threw e; cleanupCoord := c'; cleanupEvents := evs |}
      end
    end
  else {| cleanupEnd := Returned; cleanupCoord := c; cleanupEvents := [] |}.

(** The two tests that end the [finally] block. *)
Definition requeue (c : CoordinatorAPI) : list Event :=
  (if isDefined (needsTextureSyncIndexRange c) then [queueTextureSync] else [])
  ++ (if isDefined (toBeRemovedIndexRange c) then [queueRemovalTask] else []).

(** The [finally] block, entered with the value of [index] the [try] block
    left.  It ends with [Returned] when it completes, so that the way the
    [try] block ended stands; when it throws, its own error stands. *)
Definition finallyBlock (highIndex index : Z) (c : CoordinatorAPI) : CleanupExit :=
  let x := cleanupLoop (Z.to_nat (highIndex - index + 1)) highIndex index c in
  match cleanupEnd x with
  | Returned =>
    {| cleanupEnd := Returned; cleanupCoord := cleanupCoord x;
       cleanupEvents := cleanupEvents x ++ requeue (cleanupCoord x) |}
  | _ => x
  end.

(** How the invocation ends when the [finally] block completes: as the
    [try] block did. *)
Definition tryOutcome (e : LoopEnd) : Outcome :=
  match e with
  | Finished | Broke => Returned
  | Thrown err => Threw err
  | Exhausted => OutOfFuel
  end.

(** [runRemoval(coordinator, remaining, stepsBetweenChecks)].  The first
    branch is the body past the guard, where both ranges are defined and
    their bounds can be read; the last is the guard
    [!toBeRemovedIndexRange.isDefined || !toBeRemovedTsRange.isDefined]. *)
Definition runRemoval (coordinator : CoordinatorAPI) : Result :=
  match toBeRemovedIndexRange coordinator, toBeRemovedTsRange coordinator with
  | Bounds lowIndex highIndex, Bounds lowTs _ =>
    let currentTimeMs := elapsedTimeMs coordinator in
    if currentTimeMs <? lowTs then
      {| final := coordinator; outcome := Returned; trace := [queueRemovalTask] |}
    else
      let cleared :=
        setToBeRemovedRanges (clear (toBeRemovedIndexRange coordinator))
                             (clear (toBeRemovedTsRange coordinator)) coordinator in
      let body :=
        mainLoop (Z.to_nat (highIndex - lowIndex + 1)) currentTimeMs highIndex lowIndex
                 {| coord := cleared; step := 1; polls := 0 |} in
      let fin := finallyBlock highIndex (exitIndex body) (coord (exitState body)) in
      {| final := cleanupCoord fin;
         outcome := match cleanupEnd fin with
                    | Returned => tryOutcome (exitEnd body)
                    | thrown => thrown
                    end;
         trace := exitEvents body ++ cleanupEvents fin |}
  | _, _ =>
    {| final := coordinator;
       outcome := Threw (InternalError "No sprites are queued for removal");
       trace := [] |}
  end.

(** ** Notions used to state what the task does *)

(** The events of the [try] block, and those of the cleanup loop. *)
Definition loopEvent (e : Event) : Prop :=
  match e with
  | Visit _ | Defer _ _ | Flash _ | Poll _ => True
  | _ => False
  end.

Definition sweepEvent (e : Event) : Prop :=
  match e with
  | Scan _ | Readd _ _ => True
  | _ => False
  end.

(** The main loop dealt with slot [j] of the pool [c0] without a fault: a
    sprite it is not responsible for was skipped, one not yet due was
    deferred, one that is due was flashed. *)
Definition handled (c0 : CoordinatorAPI) (currentTimeMs : Z) (evs : list Event) (j : Z)
  : Prop :=
  exists p, spriteAt c0 j = Some p /\
    (pending p = true ->
     exists view idx, spriteView p = Some view /\ index p = Some idx /\
       (currentTimeMs < TransitionTimeMs view -> Defer j (TransitionTimeMs view) ∈ evs) /\
       (TransitionTimeMs view <= currentTimeMs -> Flash j ∈ evs)).

(** The main loop threw [e] at slot [j] of the pool [c0]. *)
Definition faulted (c0 : CoordinatorAPI) (j : Z) (e : Error) : Prop :=
  match spriteAt c0 j with
  | None => e = TypeError
  | Some p =>
    pending p = true /\ (spriteView p = None \/ index p = None) /\
    e = InternalError "Sprite missing required properties"
  end.

(** The cleanup loop dealt with slot [j] of the pool [c1] without a fault: a
    sprite the task is responsible for was added back to the ranges. *)
Definition swept (c1 : CoordinatorAPI) (evs : list Event) (j : Z) : Prop :=
  exists p, spriteAt c1 j = Some p /\
    (pending p = true ->
     exists view, spriteView p = Some view /\ Readd j (TransitionTimeMs view) ∈ evs).

(** The cleanup loop threw [e] at slot [j] of the pool [c1]. *)
Definition sweepFaulted (c1 : CoordinatorAPI) (j : Z) (e : Error) : Prop :=
  match spriteAt c1 j with
  | None => e = TypeError
  | Some p =>
    pending p = true /\ spriteView p = None /\
    e = InternalError "Sprite lacks a SpriteView"
  end.

(** The cleanup loop cannot get past slot [j] of the pool [c]: the turn
    throws there, at [sprites[j]] being undefined or at the test
    [properties.spriteView === undefined] of a sprite the task is responsible
    for. *)
Definition cleanupThrowsAt (c : CoordinatorAPI) (j : Z) : bool :=
  match spriteAt c j with
  | None => true
  | Some properties =>
    pending properties &&
    match spriteView properties with
    | None => true
    | Some _ => false
    end
  end.

(** The [try] block of an invocation that got past the time gate, and the
    cleanup loop that follows it. *)
Definition tryBlock (coordinator : CoordinatorAPI) (lowIndex highIndex : Z) : LoopExit :=
  mainLoop (Z.to_nat (highIndex - lowIndex + 1)) (elapsedTimeMs coordinator)
           highIndex lowIndex
           {| coord :=
                setToBeRemovedRanges (clear (toBeRemovedIndexRange coordinator))
                                     (clear (toBeRemovedTsRange coordinator)) coordinator;
              step := 1; polls := 0 |}.

Definition cleanupPass (coordinator : CoordinatorAPI) (lowIndex highIndex : Z) : CleanupExit :=
  let body := tryBlock coordinator lowIndex highIndex in
  cleanupLoop (Z.to_nat (highIndex - exitIndex body + 1)) highIndex (exitIndex body)
              (coord (exitState body)).

(** The cases of one turn of the [while] loop, one per path through it. *)
Inductive loopBody_spec (currentTimeMs i : Z) (s : LoopState)
  : Ctl * LoopState * list Event -> Prop :=
| body_undefined :
    spriteAt (coord s) i = None ->
    loopBody_spec currentTimeMs i s (Throw TypeError, s, [Visit i])
| body_skip p :
    spriteAt (coord s) i = Some p ->
    pending p = false ->
    loopBody_spec currentTimeMs i s (Continue, s, [Visit i])
| body_fault p :
    spriteAt (coord s) i = Some p ->
    pending p = true ->
    spriteView p = None \/ index p = None ->
    loopBody_spec currentTimeMs i s
      (Throw (InternalError "Sprite missing required properties"), s, [Visit i])
| body_defer p view idx :
    spriteAt (coord s) i = Some p ->
    pending p = true ->
    spriteView p = Some view ->
    index p = Some idx ->
    currentTimeMs < TransitionTimeMs view ->
    loopBody_spec currentTimeMs i s
      (Continue,
       {| coord := expandToBeRemoved i (TransitionTimeMs view) (coord s);
          step := step s; polls := polls s |},
       [Visit i; Defer i (TransitionTimeMs view)])
| body_flash_poll p view idx :
    spriteAt (coord s) i = Some p ->
    pending p = true ->
    spriteView p = Some view ->
    index p = Some idx ->
    TransitionTimeMs view <= currentTimeMs ->
    remIsZero (step s) stepsBetweenChecks = true ->
    loopBody_spec currentTimeMs i s
      (if remaining (polls s) <=? 0 then Break else Continue,
       {| coord :=
            setNeedsTextureSyncIndexRange
              (expandToInclude idx (needsTextureSyncIndexRange (coord s)))
              (setSprite i (flash p view) (coord s));
          step := step s + 1; polls := S (polls s) |},
       [Visit i; Flash i; Poll (remaining (polls s))])
| body_flash p view idx :
    spriteAt (coord s) i = Some p ->
    pending p = true ->
    spriteView p = Some view ->
    index p = Some idx ->
    TransitionTimeMs view <= currentTimeMs ->
    remIsZero (step s) stepsBetweenChecks = false ->
    loopBody_spec currentTimeMs i s
      (Continue,
       {| coord :=
            setNeedsTextureSyncIndexRange
              (expandToInclude idx (needsTextureSyncIndexRange (coord s)))
              (setSprite i (flash p view) (coord s));
          step := step s + 1; polls := polls s |},
       [Visit i; Flash i]).

(** The cases of one turn of the cleanup loop. *)
Inductive cleanupBody_spec (i : Z) (c : CoordinatorAPI)
  : option Error * CoordinatorAPI * list Event -> Prop :=
| cleanup_undefined :
    spriteAt c i = None ->
    cleanupBody_spec i c (Some TypeError, c, [Scan i])
| cleanup_skip p :
    spriteAt c i = Some p ->
    pending p = false ->
    cleanupBody_spec i c (None, c, [Scan i])
| cleanup_fault p :
    spriteAt c i = Some p ->
    pending p = true ->
    spriteView p = None ->
    cleanupBody_spec i c (Some (InternalError "Sprite lacks a SpriteView"), c, [Scan i])
| cleanup_readd p view :
    spriteAt c i = Some p ->
    pending p = true ->
    spriteView p = Some view ->
    cleanupBody_spec i c
      (None, expandToBeRemoved i (TransitionTimeMs view) c,
       [Scan i; Readd i (TransitionTimeMs view)]).

End Task.

(** ** Four statements as the specification words them

    Each is compared below with what the task does: it fails on a concrete
    pool, and holds once the conditions the task depends on are added. *)

(** Every sprite of the span that is marked for removal, at rest and due is
    flashed by an invocation with unlimited budget. *)
Definition dueAreFlashed_stated
    (TransitionTimeMs : SpriteView -> Z) (remaining : nat -> Z) (stepsBetweenChecks : Z)
    (c : CoordinatorAPI) : Prop :=
  forall k p view,
    contains (toBeRemovedIndexRange c) k ->
    spriteAt c k = Some p ->
    index p = Some k ->
    toBeRemoved p = true ->
    lifecyclePhase p = Rest ->
    spriteView p = Some view ->
    TransitionTimeMs view <= elapsedTimeMs c ->
    (forall n, 0 < remaining n) ->
    exists p' view',
      spriteAt (final (runRemoval TransitionTimeMs remaining stepsBetweenChecks c)) k = Some p' /\
      spriteView p' = Some view' /\
      Forall (fun x => x = 0) (DataView view') /\
      zeroed p' = true /\
      lifecyclePhase p' = NeedsTextureSync /\
      contains (needsTextureSyncIndexRange
                  (final (runRemoval TransitionTimeMs remaining stepsBetweenChecks c))) k.

(** With no time left from the first call on, at most [stepsBetweenChecks]
    sprites are flashed, and the slots added back by the cleanup are exactly
    the slots of the scanned span not gone through whose sprite is marked for
    removal and at rest. *)
Definition budgetRespected_stated
    (TransitionTimeMs : SpriteView -> Z) (remaining : nat -> Z) (stepsBetweenChecks : Z)
    (c : CoordinatorAPI) : Prop :=
  (forall n, remaining n <= 0) ->
  Z.of_nat (length (flashed (trace (runRemoval TransitionTimeMs remaining stepsBetweenChecks c))))
    <= stepsBetweenChecks /\
  forall lo hi tlo thi,
    toBeRemovedIndexRange c = Bounds lo hi ->
    toBeRemovedTsRange c = Bounds tlo thi ->
    tlo <= elapsedTimeMs c ->
    forall j,
      j ∈ readded (trace (runRemoval TransitionTimeMs remaining stepsBetweenChecks c)) <->
      lo <= j <= hi /\
      (j ∉ visited (trace (runRemoval TransitionTimeMs remaining stepsBetweenChecks c))) /\
      exists p, spriteAt c j = Some p /\ toBeRemoved p = true /\ lifecyclePhase p = Rest.

(** Every sprite of the span that is marked for removal and not yet due stays
    inside the two to-be-removed ranges, and the removal task is queued. *)
Definition pendingKept_stated
    (TransitionTimeMs : SpriteView -> Z) (remaining : nat -> Z) (stepsBetweenChecks : Z)
    (c : CoordinatorAPI) : Prop :=
  forall k p view,
    contains (toBeRemovedIndexRange c) k ->
    contains (toBeRemovedTsRange c) (TransitionTimeMs view) ->
    spriteAt c k = Some p ->
    index p = Some k ->
    toBeRemoved p = true ->
    spriteView p = Some view ->
    elapsedTimeMs c < TransitionTimeMs view ->
    contains (toBeRemovedIndexRange
                (final (runRemoval TransitionTimeMs remaining stepsBetweenChecks c))) k /\
    contains (toBeRemovedTsRange
                (final (runRemoval TransitionTimeMs remaining stepsBetweenChecks c)))
             (TransitionTimeMs view) /\
    queueRemovalTask ∈ trace (runRemoval TransitionTimeMs remaining stepsBetweenChecks c).

(** An invocation that reaches its [finally] block queues the texture sync
    if and only if the needs-texture-sync range became defined during the
    invocation, and the removal task if and only if the to-be-removed index
    range is defined at the end. *)
Definition requeues_stated
    (TransitionTimeMs : SpriteView -> Z) (remaining : nat -> Z) (stepsBetweenChecks : Z)
    (c : CoordinatorAPI) : Prop :=
  forall lo hi tlo thi,
    toBeRemovedIndexRange c = Bounds lo hi ->
    toBeRemovedTsRange c = Bounds tlo thi ->
    tlo <= elapsedTimeMs c ->
    (queueTextureSync ∈ trace (runRemoval TransitionTimeMs remaining stepsBetweenChecks c) <->
     isDefined (needsTextureSyncIndexRange c) = false /\
     isDefined (needsTextureSyncIndexRange
                  (final (runRemoval TransitionTimeMs remaining stepsBetweenChecks c))) = true) /\
    (queueRemovalTask ∈ trace (runRemoval TransitionTimeMs remaining stepsBetweenChecks c) <->
     isDefined (toBeRemovedIndexRange
                  (final (runRemoval TransitionTimeMs remaining stepsBetweenChecks c))) = true).

(** ** The statement on faults as the specification words it

    It is compared below with what the task does in the same way. *)

(** When a scan meets a sprite marked for removal and at rest that lacks its
    view (or, in the main loop, its index), the invocation throws an internal
    error; the sprites flashed before stay flashed; and the cleanup pass
    still runs, the cleanup being what the specification says of it: the
    sprites of the span the scan has not gone through are added back to the
    ranges, the texture sync is queued when the needs-texture-sync range is
    defined, and the removal task when the to-be-removed index range is
    defined. *)
Definition faultContained_stated
    (TransitionTimeMs : SpriteView -> Z) (remaining : nat -> Z) (stepsBetweenChecks : Z)
    (c : CoordinatorAPI) : Prop :=
  forall k p,
    spriteAt c k = Some p ->
    toBeRemoved p = true ->
    lifecyclePhase p = Rest ->
    (Visit k ∈ trace (runRemoval TransitionTimeMs remaining stepsBetweenChecks c) /\
     (spriteView p = None \/ index p = None)) \/
    (Scan k ∈ trace (runRemoval TransitionTimeMs remaining stepsBetweenChecks c) /\
     spriteView p = None) ->
    (exists message,
       outcome (runRemoval TransitionTimeMs remaining stepsBetweenChecks c) =
       Threw (InternalError message)) /\
    (forall j,
       Flash j ∈ trace (runRemoval TransitionTimeMs remaining stepsBetweenChecks c) ->
       exists q view,
         spriteAt c j = Some q /\ spriteView q = Some view /\
         spriteAt (final (runRemoval TransitionTimeMs remaining stepsBetweenChecks c)) j =
           Some (flash q view)) /\
    (forall j q view,
       contains (toBeRemovedIndexRange c) j ->
       j ∉ visited (trace (runRemoval TransitionTimeMs remaining stepsBetweenChecks c)) ->
       spriteAt c j = Some q ->
       toBeRemoved q = true ->
       lifecyclePhase q = Rest ->
       spriteView q = Some view ->
       j ∈ readded (trace (runRemoval TransitionTimeMs remaining stepsBetweenChecks c))) /\
    (isDefined
       (needsTextureSyncIndexRange
          (final (runRemoval TransitionTimeMs remaining stepsBetweenChecks c))) = true ->
     queueTextureSync ∈ trace (runRemoval TransitionTimeMs remaining stepsBetweenChecks c)) /\
    (isDefined
       (toBeRemovedIndexRange
          (final (runRemoval TransitionTimeMs remaining stepsBetweenChecks c))) = true ->
     queueRemovalTask ∈ trace (runRemoval TransitionTimeMs remaining stepsBetweenChecks c)).

(** ** Concrete pools *)

(** A getter for the examples: the transition time is the first attribute
    of the swatch. *)
Definition firstAttribute (view : SpriteView) : Z := nth 0 (DataView view) 0.

(** A [remaining] with time always left, and one with none from the start. *)
Definition unlimited : nat -> Z := fun _ => 1.
Definition exhausted : nat -> Z := fun _ => 0.

(** Sprites marked for removal and at rest: one due at 10 ms, one due at
    100 ms, one that lacks its view; and one marked for removal that still
    waits for its texture sync. *)
Definition dueSprite (i : Z) : SpriteImpl :=
  {| toBeRemoved := true; lifecyclePhase := Rest;
     spriteView := Some {| DataView := [10; 3; 7] |};
     index := Some i; zeroed := false |}.

Definition laterSprite (i : Z) : SpriteImpl :=
  {| toBeRemoved := true; lifecyclePhase := Rest;
     spriteView := Some {| DataView := [100; 3; 7] |};
     index := Some i; zeroed := false |}.

Definition viewlessSprite (i : Z) : SpriteImpl :=
  {| toBeRemoved := true; lifecyclePhase := Rest;
     spriteView := None;
     index := Some i; zeroed := false |}.

Definition syncingSprite (i : Z) : SpriteImpl :=
  {| toBeRemoved := true; lifecyclePhase := NeedsTextureSync;
     spriteView := Some {| DataView := [100; 3; 7] |};
     index := Some i; zeroed := false |}.

(** Coordinators, all read at 50 ms. *)
Definition exampleMixed : CoordinatorAPI :=
  {| elapsedTimeMs := 50;
     needsTextureSyncIndexRange := Undefined;
     sprites := [dueSprite 0; laterSprite 1; dueSprite 2; dueSprite 3];
     toBeRemovedIndexRange := Bounds 0 2;
     toBeRemovedTsRange := Bounds 10 100 |}.

Definition exampleTwoDue : CoordinatorAPI :=
  {| elapsedTimeMs := 50;
     needsTextureSyncIndexRange := Undefined;
     sprites := [dueSprite 0; dueSprite 1];
     toBeRemovedIndexRange := Bounds 0 1;
     toBeRemovedTsRange := Bounds 10 10 |}.

Definition exampleUndefined : CoordinatorAPI :=
  {| elapsedTimeMs := 50;
     needsTextureSyncIndexRange := Undefined;
     sprites := [dueSprite 0];
     toBeRemovedIndexRange := Undefined;
     toBeRemovedTsRange := Undefined |}.

Definition exampleGated : CoordinatorAPI :=
  {| elapsedTimeMs := 50;
     needsTextureSyncIndexRange := Undefined;
     sprites := [dueSprite 0];
     toBeRemovedIndexRange := Bounds 0 0;
     toBeRemovedTsRange := Bounds 100 100 |}.

Definition exampleFault : CoordinatorAPI :=
  {| elapsedTimeMs := 50;
     needsTextureSyncIndexRange := Undefined;
     sprites := [viewlessSprite 0; dueSprite 1];
     toBeRemovedIndexRange := Bounds 0 1;
     toBeRemovedTsRange := Bounds 10 10 |}.

Definition exampleCleanupFault : CoordinatorAPI :=
  {| elapsedTimeMs := 50;
     needsTextureSyncIndexRange := Undefined;
     sprites := [dueSprite 0; laterSprite 1; viewlessSprite 2; laterSprite 3];
     toBeRemovedIndexRange := Bounds 0 3;
     toBeRemovedTsRange := Bounds 10 100 |}.

Definition exampleCutShort : CoordinatorAPI :=
  {| elapsedTimeMs := 50;
     needsTextureSyncIndexRange := Undefined;
     sprites := [dueSprite 0; viewlessSprite 1; laterSprite 2; viewlessSprite 3;
                 laterSprite 4];
     toBeRemovedIndexRange := Bounds 0 4;
     toBeRemovedTsRange := Bounds 10 100 |}.

Definition exampleSyncing : CoordinatorAPI :=
  {| elapsedTimeMs := 50;
     needsTextureSyncIndexRange := Undefined;
     sprites := [syncingSprite 0; dueSprite 1];
     toBeRemovedIndexRange := Bounds 0 1;
     toBeRemovedTsRange := Bounds 10 100 |}.

Definition exampleAlreadyDirty : CoordinatorAPI :=
  {| elapsedTimeMs := 50;
     needsTextureSyncIndexRange := Bounds 7 7;
     sprites := [laterSprite 0];
     toBeRemovedIndexRange := Bounds 0 0;
     toBeRemovedTsRange := Bounds 10 100 |}.

Arguments loopBody : simpl never.
Arguments cleanupBody : simpl never.

(** * Properties *)

(** ** Ranges *)

Lemma contains_expand_self v r : contains (expandToInclude v r) v.
Proof. destruct r; simpl; lia. Qed.

Lemma contains_expand_mono v w r : contains r w -> contains (expandToInclude v r) w.
Proof. destruct r; simpl; [tauto | lia]. Qed.

Lemma isDefined_expand v r : isDefined (expandToInclude v r) = true.
Proof. by destruct r. Qed.

Lemma contains_isDefined r v : contains r v -> isDefined r = true.
Proof. by destruct r. Qed.

(** ** Reading and writing the pool *)

Lemma spriteAt_setSprite_eq c i p q :
  spriteAt c i = Some q -> spriteAt (setSprite i p c) i = Some p.
Proof.
  unfold spriteAt, setSprite; simpl. case_decide; [|done].
  intros Hq. apply list_lookup_insert_eq. by eapply lookup_lt_Some.
Qed.

Lemma spriteAt_setSprite_ne c i j p :
  0 <= i -> i <> j -> spriteAt (setSprite i p c) j = spriteAt c j.
Proof.
  unfold spriteAt, setSprite; simpl. intros Hi Hne. case_decide; [|done].
  apply list_lookup_insert_ne. lia.
Qed.

Lemma spriteAt_nonneg c i p : spriteAt c i = Some p -> 0 <= i.
Proof. unfold spriteAt. by case_decide. Qed.

(** ** One turn of each loop *)

Lemma loopBody_cases tt remaining sbc now i s :
  loopBody_spec tt remaining sbc now i s (loopBody tt remaining sbc now i s).
Proof.
  unfold loopBody.
  destruct (spriteAt (coord s) i) as [p|] eqn:Hp; [|by constructor].
  destruct (pending p) eqn:Hpend; simpl; [|by econstructor].
  destruct (spriteView p) as [view|] eqn:Hview; [|econstructor; eauto].
  destruct (index p) as [idx|] eqn:Hidx; [|econstructor; eauto].
  destruct (Z.gtb_spec (tt view) now) as [Hgt|Hle]; [by econstructor|].
  destruct (remIsZero (step s) sbc) eqn:Hrem.
  - by eapply body_flash_poll.
  - by eapply body_flash.
Qed.

Lemma cleanupBody_cases tt i c :
  cleanupBody_spec tt i c (cleanupBody tt i c).
Proof.
  unfold cleanupBody.
  destruct (spriteAt c i) as [p|] eqn:Hp; [|by constructor].
  destruct (pending p) eqn:Hpend; simpl; [|by econstructor].
  destruct (spriteView p) as [view|] eqn:Hview; by econstructor.
Qed.

Lemma pending_true p :
  pending p = true <-> toBeRemoved p = true /\ lifecyclePhase p = Rest.
Proof.
  unfold pending. rewrite andb_true_iff, bool_decide_eq_true. done.
Qed.

(** ** Reading the trace *)

Lemma elem_visited t i : i ∈ visited t <-> Visit i ∈ t.
Proof.
  unfold visited. rewrite list_elem_of_omap. split.
  - intros (e & He & Hm). destruct e; simplify_eq. done.
  - intros He. by exists (Visit i).
Qed.

Lemma elem_flashed t i : i ∈ flashed t <-> Flash i ∈ t.
Proof.
  unfold flashed. rewrite list_elem_of_omap. split.
  - intros (e & He & Hm). destruct e; simplify_eq. done.
  - intros He. by exists (Flash i).
Qed.

Lemma elem_scanned t i : i ∈ scanned t <-> Scan i ∈ t.
Proof.
  unfold scanned. rewrite list_elem_of_omap. split.
  - intros (e & He & Hm). destruct e; simplify_eq. done.
  - intros He. by exists (Scan i).
Qed.

Lemma elem_readded t i : i ∈ readded t <-> exists ts, Readd i ts ∈ t.
Proof.
  unfold readded. rewrite list_elem_of_omap. split.
  - intros (e & He & Hm). destruct e; simplify_eq. by eexists.
  - intros (ts & He). by exists (Readd i ts).
Qed.

Lemma elem_requeue c e :
  e ∈ requeue c <->
  (e = queueTextureSync /\ isDefined (needsTextureSyncIndexRange c) = true) \/
  (e = queueRemovalTask /\ isDefined (toBeRemovedIndexRange c) = true).
Proof.
  unfold requeue.
  destruct (isDefined (needsTextureSyncIndexRange c)),
           (isDefined (toBeRemovedIndexRange c)); simpl;
    rewrite ?elem_of_cons, ?elem_of_nil; naive_solver.
Qed.

Lemma spriteAt_ext c c' i : sprites c = sprites c' -> spriteAt c i = spriteAt c' i.
Proof. unfold spriteAt. by intros ->. Qed.

(** ** The guard at entry *)

Lemma runRemoval_undefined tt remaining sbc c :
  isDefined (toBeRemovedIndexRange c) = false \/
  isDefined (toBeRemovedTsRange c) = false ->
  runRemoval tt remaining sbc c =
  {| final := c;
     outcome := Threw (InternalError "No sprites are queued for removal");
     trace := [] |}.
Proof.
  unfold runRemoval.
  destruct (toBeRemovedIndexRange c), (toBeRemovedTsRange c); simpl; try done.
  by intros [|].
Qed.

(** ** The loops as invariants *)

Section Rules.

Variable TransitionTimeMs : SpriteView -> Z.
Variable remaining : nat -> Z.
Variable stepsBetweenChecks : Z.
Variables currentTimeMs highIndex : Z.

(** The rule of the [while] loop: an invariant [I] on the index, the state and
    the events so far, kept by every turn that goes on, gives [Q] however the
    loop is left; with the fuel [runRemoval] gives it, the loop is never cut
    short. *)
Lemma mainLoop_rule
    (I : Z -> LoopState -> list Event -> Prop)
    (Q : LoopEnd -> Z -> LoopState -> list Event -> Prop) :
  (forall i s evs, I i s evs -> i <= highIndex ->
     match loopBody TransitionTimeMs remaining stepsBetweenChecks currentTimeMs i s with
     | (Continue, s', evs') => I (i + 1) s' (evs ++ evs')
     | (Break, s', evs') => Q Broke (i + 1) s' (evs ++ evs')
     | (Throw e, s', evs') => Q (Thrown e) (i + 1) s' (evs ++ evs')
     end) ->
  (forall i s evs, I i s evs -> highIndex < i -> Q Finished i s evs) ->
  forall fuel i s evs,
    (Z.to_nat (highIndex - i + 1) <= fuel)%nat ->
    I i s evs ->
    let x := mainLoop TransitionTimeMs remaining stepsBetweenChecks
               fuel currentTimeMs highIndex i s in
    Q (exitEnd x) (exitIndex x) (exitState x) (evs ++ exitEvents x).
Proof.
  intros Hbody Hdone fuel.
  induction fuel as [|fuel IH]; intros i s evs Hfuel HI; simpl.
  - destruct (Z.leb_spec i highIndex) as [Hle|Hgt]; [lia|].
    simpl. rewrite app_nil_r. by apply Hdone.
  - destruct (Z.leb_spec i highIndex) as [Hle|Hgt].
    + specialize (Hbody i s evs HI Hle).
      destruct (loopBody _ _ _ _ i s) as [[ctl s'] evs'].
      destruct ctl; simpl; [|done..].
      rewrite app_assoc. apply IH; [lia|done].
    + simpl. rewrite app_nil_r. by apply Hdone.
Qed.

(** The rule of the [for] loop of the [finally] block; [Q] is given the
    index after the last turn made. *)
Lemma cleanupLoop_rule
    (I : Z -> CoordinatorAPI -> list Event -> Prop)
    (Q : Outcome -> Z -> CoordinatorAPI -> list Event -> Prop) :
  (forall i c evs, I i c evs -> i <= highIndex ->
     match cleanupBody TransitionTimeMs i c with
     | (None, c', evs') => I (i + 1) c' (evs ++ evs')
     | (Some e, c', evs') => Q (Threw e) (i + 1) c' (evs ++ evs')
     end) ->
  (forall i c evs, I i c evs -> highIndex < i -> Q Returned i c evs) ->
  forall fuel i c evs,
    (Z.to_nat (highIndex - i + 1) <= fuel)%nat ->
    I i c evs ->
    let x := cleanupLoop TransitionTimeMs fuel highIndex i c in
    exists n, Q (cleanupEnd x) n (cleanupCoord x) (evs ++ cleanupEvents x).
Proof.
  intros Hbody Hdone fuel.
  induction fuel as [|fuel IH]; intros i c evs Hfuel HI; simpl.
  - destruct (Z.leb_spec i highIndex) as [Hle|Hgt]; [lia|].
    simpl. rewrite app_nil_r. exists i. by apply Hdone.
  - destruct (Z.leb_spec i highIndex) as [Hle|Hgt].
    + specialize (Hbody i c evs HI Hle).
      destruct (cleanupBody _ i c) as [[r c'] evs'].
      destruct r; simpl; [by exists (i + 1)|].
      rewrite app_assoc. apply IH; [lia|done].
    + simpl. rewrite app_nil_r. exists i. by apply Hdone.
Qed.

End Rules.

(** ** What the main loop does to the pool *)

Section Proofs.

Variable TransitionTimeMs : SpriteView -> Z.
Variable remaining : nat -> Z.
Variable stepsBetweenChecks : Z.

Local Abbreviation loop := (mainLoop TransitionTimeMs remaining stepsBetweenChecks).
Local Abbreviation sweep := (cleanupLoop TransitionTimeMs).
Local Abbreviation run := (runRemoval TransitionTimeMs remaining stepsBetweenChecks).

Ltac events :=
  repeat (rewrite ?elem_of_app, ?elem_of_cons, ?elem_of_nil in *).

Ltac body_inv Hb :=
  inversion Hb as
    [ Hnone
    | p Hp Hpend
    | p Hp Hpend Hmiss
    | p view idx Hp Hpend Hview Hidx Hdue
    | p view idx Hp Hpend Hview Hidx Hdue Hrem
    | p view idx Hp Hpend Hview Hidx Hdue Hrem ];
  subst; clear Hb.

Ltac sweep_inv Hb :=
  inversion Hb as
    [ Hnone
    | p Hp Hpend
    | p Hp Hpend Hview
    | p view Hp Hpend Hview ];
  subst; clear Hb.

(** A slot is flashed at most at its own turn: a [Flash] event marks exactly
    the slots whose sprite was replaced by its flashed version, and every
    other slot holds the sprite it held before. *)
Lemma mainLoop_sprites now hi lo s0 fuel :
  (Z.to_nat (hi - lo + 1) <= fuel)%nat ->
  let x := loop fuel now hi lo s0 in
  lo <= exitIndex x /\
  (forall j, Flash j ∈ exitEvents x ->
     lo <= j < exitIndex x /\
     exists p view idx,
       spriteAt (coord s0) j = Some p /\ pending p = true /\
       spriteView p = Some view /\ index p = Some idx /\
       TransitionTimeMs view <= now /\
       spriteAt (coord (exitState x)) j = Some (flash p view) /\
       contains (needsTextureSyncIndexRange (coord (exitState x))) idx) /\
  (forall j, Flash j ∉ exitEvents x ->
     spriteAt (coord (exitState x)) j = spriteAt (coord s0) j).
Proof.
  intros Hfuel.
  set (I := fun (i : Z) (s : LoopState) (evs : list Event) =>
    lo <= i /\
    (forall j, Flash j ∈ evs ->
       lo <= j < i /\
       exists p view idx,
         spriteAt (coord s0) j = Some p /\ pending p = true /\
         spriteView p = Some view /\ index p = Some idx /\
         TransitionTimeMs view <= now /\
         spriteAt (coord s) j = Some (flash p view) /\
         contains (needsTextureSyncIndexRange (coord s)) idx) /\
    (forall j, Flash j ∉ evs -> spriteAt (coord s) j = spriteAt (coord s0) j)).
  assert (Hstep : forall i s evs, I i s evs -> forall ctl s' evs',
             loopBody_spec TransitionTimeMs remaining stepsBetweenChecks now i s
               (ctl, s', evs') ->
             I (i + 1) s' (evs ++ evs')).
  { intros i s evs (Hlo & Hin & Hout) ctl s' evs' Hb.
    assert (Hi : Flash i ∉ evs) by (intros Hf; apply Hin in Hf; lia).
    assert (Hkeep : forall j, Flash j ∈ evs ->
              lo <= j < i + 1 /\
              exists p view idx,
                spriteAt (coord s0) j = Some p /\ pending p = true /\
                spriteView p = Some view /\ index p = Some idx /\
                TransitionTimeMs view <= now /\
                spriteAt (coord s) j = Some (flash p view) /\
                contains (needsTextureSyncIndexRange (coord s)) idx).
    { intros j Hj. destruct (Hin j Hj) as [? ?]. split; [lia|done]. }
    assert (Hflash : forall p view idx,
              spriteAt (coord s) i = Some p -> pending p = true ->
              spriteView p = Some view -> index p = Some idx ->
              TransitionTimeMs view <= now ->
              forall st po evs'',
                (forall j, Flash j ∈ evs'' <-> j = i) ->
                I (i + 1)
                  {| coord :=
                       setNeedsTextureSyncIndexRange
                         (expandToInclude idx (needsTextureSyncIndexRange (coord s)))
                         (setSprite i (flash p view) (coord s));
                     step := st; polls := po |} (evs ++ evs'')).
    { intros p view idx Hp Hpend Hview Hidx Hle st po evs'' Hev.
      pose proof (spriteAt_nonneg _ _ _ Hp) as Hnn.
      split; [lia|]. split.
      - intros j Hj. apply elem_of_app in Hj as [Hj|Hj].
        + destruct (Hkeep j Hj) as (Hr & q & v & ix & H1 & H2 & H3 & H4 & H5 & H6 & H7).
          split; [done|]. exists q, v, ix. repeat split; try done.
          * simpl. destruct (Hin j Hj) as [? _].
            change (spriteAt (setSprite i (flash p view) (coord s)) j = Some (flash q v)).
            rewrite spriteAt_setSprite_ne by lia. done.
          * simpl. by apply contains_expand_mono.
        + apply Hev in Hj as ->. split; [lia|].
          exists p, view, idx. rewrite <- (Hout i Hi). repeat split; try done.
          * change (spriteAt (setSprite i (flash p view) (coord s)) i = Some (flash p view)).
            by eapply spriteAt_setSprite_eq.
          * simpl. apply contains_expand_self.
      - intros j Hj. rewrite elem_of_app in Hj.
        assert (j <> i) by (intros ->; apply Hj; right; by apply Hev).
        change (spriteAt (setSprite i (flash p view) (coord s)) j = spriteAt (coord s0) j).
        rewrite spriteAt_setSprite_ne by lia. apply Hout. tauto. }
    body_inv Hb.
    - split; [lia|]. split; intros j Hj; events.
      + destruct Hj as [Hj|[?|[]]]; [by apply Hkeep | done].
      + apply Hout. tauto.
    - split; [lia|]. split; intros j Hj; events.
      + destruct Hj as [Hj|[?|[]]]; [by apply Hkeep | done].
      + apply Hout. tauto.
    - split; [lia|]. split; intros j Hj; events.
      + destruct Hj as [Hj|[?|[]]]; [by apply Hkeep | done].
      + apply Hout. tauto.
    - split; [lia|]. split; intros j Hj; events.
      + destruct Hj as [Hj|[?|[?|[]]]]; [by apply Hkeep | done..].
      + apply Hout. tauto.
    - eapply Hflash; eauto. intros j. events. naive_solver.
    - eapply Hflash; eauto. intros j. events. naive_solver. }
  intros x.
  pose proof (mainLoop_rule TransitionTimeMs remaining stepsBetweenChecks now hi
                I (fun _ => I)) as Hrule.
  apply (Hrule) with (evs := []) (fuel := fuel) (i := lo) (s := s0).
  - intros i s evs HI _.
    pose proof (loopBody_cases TransitionTimeMs remaining stepsBetweenChecks now i s) as Hb.
    destruct (loopBody _ _ _ now i s) as [[ctl s'] evs'].
    destruct ctl; by eapply Hstep.
  - done.
  - done.
  - split; [lia|]. split; intros j Hj; [by apply elem_of_nil in Hj | done].
Qed.

(** The main loop goes through the slots from [lo] in order, one [Visit]
    each, never runs out of fuel, and leaves the slots it has not reached as
    they were.  Every slot it went through was handled, except the last one
    when the loop threw there. *)
Lemma mainLoop_handled now hi lo s0 fuel :
  (Z.to_nat (hi - lo + 1) <= fuel)%nat ->
  let x := loop fuel now hi lo s0 in
  exitEnd x <> Exhausted /\
  lo <= exitIndex x /\
  exitIndex x <= Z.max lo (hi + 1) /\
  (exitEnd x = Finished -> hi < exitIndex x) /\
  visited (exitEvents x) = seqZ lo (exitIndex x - lo) /\
  Forall loopEvent (exitEvents x) /\
  (forall j, exitIndex x <= j ->
     spriteAt (coord (exitState x)) j = spriteAt (coord s0) j) /\
  (forall j, lo <= j < exitIndex x ->
     (forall e, exitEnd x = Thrown e -> j < exitIndex x - 1) ->
     handled TransitionTimeMs (coord s0) now (exitEvents x) j) /\
  (forall e, exitEnd x = Thrown e ->
     lo < exitIndex x /\ faulted (coord s0) (exitIndex x - 1) e /\
     Flash (exitIndex x - 1) ∉ exitEvents x).
Proof.
  intros Hfuel x.
  set (I := fun (i : Z) (s : LoopState) (evs : list Event) =>
    lo <= i /\ i <= Z.max lo (hi + 1) /\
    visited evs = seqZ lo (i - lo) /\ Forall loopEvent evs /\
    (forall j, i <= j -> spriteAt (coord s) j = spriteAt (coord s0) j) /\
    (forall j, Flash j ∈ evs -> j < i) /\
    (forall j, lo <= j < i -> handled TransitionTimeMs (coord s0) now evs j)).
  set (Q := fun (e : LoopEnd) (i : Z) (s : LoopState) (evs : list Event) =>
    e <> Exhausted /\ lo <= i /\ i <= Z.max lo (hi + 1) /\
    (e = Finished -> hi < i) /\
    visited evs = seqZ lo (i - lo) /\ Forall loopEvent evs /\
    (forall j, i <= j -> spriteAt (coord s) j = spriteAt (coord s0) j) /\
    (forall j, lo <= j < i -> (forall err, e = Thrown err -> j < i - 1) ->
       handled TransitionTimeMs (coord s0) now evs j) /\
    (forall err, e = Thrown err ->
       lo < i /\ faulted (coord s0) (i - 1) err /\ Flash (i - 1) ∉ evs)).
  assert (Hmono : forall evs evs' j,
            handled TransitionTimeMs (coord s0) now evs j ->
            handled TransitionTimeMs (coord s0) now (evs ++ evs') j).
  { intros evs evs' j (p & Hp & Hh). exists p. split; [done|].
    intros Hpend. destruct (Hh Hpend) as (v & ix & ? & ? & Hd & Hf).
    exists v, ix. repeat split; try done; intros; apply elem_of_app; left; auto. }
  assert (Hseq : forall i, lo <= i -> seqZ lo (i + 1 - lo) = seqZ lo (i - lo) ++ [i]).
  { intros i Hi. replace (i + 1 - lo) with ((i - lo) + 1) by lia.
    rewrite seqZ_app by lia. f_equal.
    replace (lo + (i - lo)) with i by lia. by rewrite seqZ_cons, seqZ_nil by lia. }
  (* what every turn keeps, whatever its way out *)
  assert (Hcommon : forall i s evs, I i s evs -> i <= hi -> forall ctl s' evs',
      loopBody_spec TransitionTimeMs remaining stepsBetweenChecks now i s (ctl, s', evs') ->
      lo <= i + 1 /\ i + 1 <= Z.max lo (hi + 1) /\
      visited (evs ++ evs') = seqZ lo (i + 1 - lo) /\ Forall loopEvent (evs ++ evs') /\
      (forall j, i + 1 <= j -> spriteAt (coord s') j = spriteAt (coord s0) j) /\
      (forall j, Flash j ∈ evs ++ evs' -> j < i + 1) /\
      (forall j, lo <= j < i -> handled TransitionTimeMs (coord s0) now (evs ++ evs') j) /\
      ((forall err, ctl <> Throw err) ->
         handled TransitionTimeMs (coord s0) now (evs ++ evs') i) /\
      (forall err, ctl = Throw err -> faulted (coord s0) i err /\ Flash i ∉ evs ++ evs')).
  { intros i s evs (Hlo & Hhi & Hvis & Hev & Hun & Hfl & Hh) Hle ctl s' evs' Hb.
    assert (Hi : spriteAt (coord s) i = spriteAt (coord s0) i) by (apply Hun; lia).
    assert (Hni : Flash i ∉ evs) by (intros Hf; apply Hfl in Hf; lia).
    split; [lia|]. split; [lia|].
    rewrite Hseq by done. unfold visited in *. rewrite omap_app, Hvis.
    rewrite Forall_app.
    assert (Hfl' : forall j, Flash j ∈ evs ++ evs' ->
              (forall k, Flash k ∈ evs' -> k = i) -> j < i + 1).
    { intros j Hj Hk. apply elem_of_app in Hj as [Hj|Hj];
        [apply Hfl in Hj; lia | apply Hk in Hj; lia]. }
    assert (Hprev : forall j, lo <= j < i ->
              handled TransitionTimeMs (coord s0) now (evs ++ evs') j)
      by (intros j Hj; apply Hmono, Hh, Hj).
    body_inv Hb; simpl.
    - split_and!; try done; try (by repeat constructor).
      + intros j Hj. apply Hun. lia.
      + intros j Hj. apply (Hfl' j Hj). intros k. events. naive_solver.
      + intros Hno. by destruct (Hno TypeError).
      + intros err [= <-]. split; [unfold faulted; rewrite <- Hi; by rewrite Hnone|].
        events. naive_solver.
    - split_and!; try done; try (by repeat constructor).
      + intros j Hj. apply Hun. lia.
      + intros j Hj. apply (Hfl' j Hj). intros k. events. naive_solver.
      + intros _. exists p. rewrite <- Hi. split; [done|]. congruence.

    - split_and!; try done; try (by repeat constructor).
      + intros j Hj. apply Hun. lia.
      + intros j Hj. apply (Hfl' j Hj). intros k. events. naive_solver.
      + intros Hno. by edestruct Hno.
      + intros err [= <-]. split; [unfold faulted; by rewrite <- Hi, Hp|].
        events. naive_solver.
    - split_and!; try done; try (by repeat constructor).
      + intros j Hj. apply Hun. lia.
      + intros j Hj. apply (Hfl' j Hj). intros k. events. naive_solver.
      + intros _. exists p. rewrite <- Hi. split; [done|]. intros _.
        exists view, idx. repeat split; try done.
        * intros _. events. naive_solver.
        * lia.

    - split_and!; try done; try (by repeat constructor).
      + intros j Hj.
        change (spriteAt (setSprite i (flash p view) (coord s)) j = spriteAt (coord s0) j).
        pose proof (spriteAt_nonneg _ _ _ Hp).
        rewrite spriteAt_setSprite_ne by lia. apply Hun. lia.
      + intros j Hj. apply (Hfl' j Hj). intros k. events. naive_solver.
      + intros _. exists p. rewrite <- Hi. split; [done|]. intros _.
        exists view, idx. repeat split; try done.
        * lia.
        * intros _. events. naive_solver.
      + intros err. by destruct (remaining (polls s) <=? 0).
    - split_and!; try done; try (by repeat constructor).
      + intros j Hj.
        change (spriteAt (setSprite i (flash p view) (coord s)) j = spriteAt (coord s0) j).
        pose proof (spriteAt_nonneg _ _ _ Hp).
        rewrite spriteAt_setSprite_ne by lia. apply Hun. lia.
      + intros j Hj. apply (Hfl' j Hj). intros k. events. naive_solver.
      + intros _. exists p. rewrite <- Hi. split; [done|]. intros _.
        exists view, idx. repeat split; try done.
        * lia.
        * intros _. events. naive_solver.
 }
  pose proof (mainLoop_rule TransitionTimeMs remaining stepsBetweenChecks now hi I Q) as Hrule.
  assert (HQ : Q (exitEnd x) (exitIndex x) (exitState x) ([] ++ exitEvents x)).
  { apply Hrule.
    - intros i s evs HI Hle.
      pose proof (loopBody_cases TransitionTimeMs remaining stepsBetweenChecks now i s) as Hb.
      destruct (loopBody _ _ _ now i s) as [[ctl s'] evs'].
      destruct (Hcommon i s evs HI Hle ctl s' evs' Hb)
        as (H1 & H2 & H3 & H4 & H5 & H6 & H7 & H8 & H9).
      assert (Hall : (forall err, ctl <> Throw err) -> forall j, lo <= j < i + 1 ->
                handled TransitionTimeMs (coord s0) now (evs ++ evs') j).
      { intros Hno j Hj. destruct (decide (j = i)) as [->|]; [by apply H8|].
        apply H7. lia. }
      destruct ctl; unfold I, Q.
      + split_and!; try done. by apply Hall.
      + split_and!; try done. intros j Hj _. by apply Hall.
      + split_and!; try done.
        * intros j Hj Hlt. apply H7. specialize (Hlt e eq_refl). lia.
        * intros err [= <-]. replace (i + 1 - 1) with i by lia.
          split; [destruct HI; lia|]. by apply H9.
    - intros i s evs (Hlo & Hhi & Hvis & Hev & Hun & Hfl & Hh) Hgt.
      unfold Q. split_and!; try done. intros j Hj _. by apply Hh.
    - done.
    - unfold I. split_and!; try done; try lia.
      + by rewrite seqZ_nil by lia.
      + intros j Hj. by apply elem_of_nil in Hj. }
  apply HQ.
Qed.

(** What the main loop does to the ranges: the two to-be-removed ranges stay
    defined together, and hold every slot deferred with its timestamp. *)
Lemma mainLoop_ranges now hi lo s0 fuel :
  (Z.to_nat (hi - lo + 1) <= fuel)%nat ->
  let x := loop fuel now hi lo s0 in
  let c1 := coord (exitState x) in
  (isDefined (toBeRemovedIndexRange (coord s0)) = isDefined (toBeRemovedTsRange (coord s0)) ->
   isDefined (toBeRemovedIndexRange c1) = isDefined (toBeRemovedTsRange c1)) /\
  (isDefined (needsTextureSyncIndexRange (coord s0)) = true ->
   isDefined (needsTextureSyncIndexRange c1) = true) /\
  (forall j ts, Defer j ts ∈ exitEvents x ->
     contains (toBeRemovedIndexRange c1) j /\ contains (toBeRemovedTsRange c1) ts).
Proof.
  intros Hfuel x c1.
  set (I := fun (i : Z) (s : LoopState) (evs : list Event) =>
    (isDefined (toBeRemovedIndexRange (coord s0)) = isDefined (toBeRemovedTsRange (coord s0)) ->
     isDefined (toBeRemovedIndexRange (coord s)) = isDefined (toBeRemovedTsRange (coord s))) /\
    (isDefined (needsTextureSyncIndexRange (coord s0)) = true ->
     isDefined (needsTextureSyncIndexRange (coord s)) = true) /\
    (forall j ts, Defer j ts ∈ evs ->
       contains (toBeRemovedIndexRange (coord s)) j /\
       contains (toBeRemovedTsRange (coord s)) ts)).
  assert (Hstep : forall i s evs, I i s evs -> forall ctl s' evs',
             loopBody_spec TransitionTimeMs remaining stepsBetweenChecks now i s
               (ctl, s', evs') ->
             I (i + 1) s' (evs ++ evs')).
  { intros i s evs (Hpair & Hnts & Hdef) ctl s' evs' Hb.
    body_inv Hb; unfold I; simpl; split_and!; try done;
      try (by rewrite !isDefined_expand);
      try (intros j ts Hj; events;
           destruct Hj as [Hj|Hj]; [by apply Hdef | naive_solver]).
    intros j ts Hj. events. destruct Hj as [Hj|[Hj|[Hj|[]]]]; try done.
    - destruct (Hdef j ts Hj). split; by apply contains_expand_mono.
    - injection Hj as -> ->. split; apply contains_expand_self. }
  apply (mainLoop_rule TransitionTimeMs remaining stepsBetweenChecks now hi I (fun _ => I))
    with (evs := []) (fuel := fuel) (i := lo) (s := s0); try done.
  - intros i s evs HI _.
    pose proof (loopBody_cases TransitionTimeMs remaining stepsBetweenChecks now i s) as Hb.
    destruct (loopBody _ _ _ now i s) as [[ctl s'] evs'].
    destruct ctl; by eapply Hstep.
  - unfold I. split_and!; try done. intros j ts Hj. by apply elem_of_nil in Hj.
Qed.

(** At most [stepsBetweenChecks] sprites are flashed when [remaining] never
    has time left: the step counter counts the flashed sprites, and the
    first poll, after the [stepsBetweenChecks]-th, ends the loop. *)
Lemma mainLoop_budget now hi lo s0 fuel :
  0 < stepsBetweenChecks ->
  (forall n, remaining n <= 0) ->
  step s0 = 1 ->
  (Z.to_nat (hi - lo + 1) <= fuel)%nat ->
  let x := loop fuel now hi lo s0 in
  Z.of_nat (length (flashed (exitEvents x))) <= stepsBetweenChecks.
Proof.
  intros Hsbc Hbud Hs0 Hfuel x.
  set (I := fun (i : Z) (s : LoopState) (evs : list Event) =>
    step s = 1 + Z.of_nat (length (flashed evs)) /\ step s <= stepsBetweenChecks).
  set (Q := fun (e : LoopEnd) (i : Z) (s : LoopState) (evs : list Event) =>
    Z.of_nat (length (flashed evs)) <= stepsBetweenChecks).
  apply (mainLoop_rule TransitionTimeMs remaining stepsBetweenChecks now hi I Q)
    with (evs := []) (fuel := fuel) (i := lo) (s := s0); try done.
  - intros i s evs [Hst Hle] _.
    pose proof (loopBody_cases TransitionTimeMs remaining stepsBetweenChecks now i s) as Hb.
    destruct (loopBody _ _ _ now i s) as [[ctl s'] evs'].
    unfold I, Q, flashed in *.
    body_inv Hb; rewrite ?omap_app, ?length_app; simpl; try lia.
    + destruct (Z.leb_spec (remaining (polls s)) 0) as [_|Hpos];
        [lia | specialize (Hbud (polls s)); lia].
    + unfold remIsZero in Hrem.
      destruct (Z.eqb_spec stepsBetweenChecks 0) as [|_]; [lia|].
      apply Z.eqb_neq in Hrem.
      assert (step s <> stepsBetweenChecks)
        by (intros Heq; apply Hrem; rewrite Heq; apply Z.rem_same; lia).
      lia.
  - intros i s evs [Hst Hle] _. unfold Q. lia.
  - unfold I. simpl. lia.
Qed.

(** With time always left the loop is never left by [break]. *)
Lemma mainLoop_unlimited now hi lo s0 fuel :
  (forall n, 0 < remaining n) ->
  (Z.to_nat (hi - lo + 1) <= fuel)%nat ->
  exitEnd (loop fuel now hi lo s0) <> Broke.
Proof.
  intros Hbud Hfuel.
  apply (mainLoop_rule TransitionTimeMs remaining stepsBetweenChecks now hi
           (fun _ _ _ => True) (fun e _ _ _ => e <> Broke))
    with (evs := []) (fuel := fuel) (i := lo) (s := s0); try done.
  intros i s evs _ _.
  pose proof (loopBody_cases TransitionTimeMs remaining stepsBetweenChecks now i s) as Hb.
  destruct (loopBody _ _ _ now i s) as [[ctl s'] evs'].
  body_inv Hb; try done.
  destruct (Z.leb_spec (remaining (polls s)) 0) as [Hle|_]; [|done].
  specialize (Hbud (polls s)). lia.
Qed.

(** ** What the cleanup loop does *)

(** The cleanup loop goes through the slots from [m] in order, one [Scan]
    each, and touches neither the pool nor the texture-sync range.  Every slot
    it went through was swept, except the last one when the loop threw there;
    what it added back is in the ranges, which only grow and stay defined
    together. *)
Lemma cleanupLoop_spec hi m c1 fuel :
  (Z.to_nat (hi - m + 1) <= fuel)%nat ->
  let y := sweep fuel hi m c1 in
  let c2 := cleanupCoord y in
  exists n,
    cleanupEnd y <> OutOfFuel /\
    m <= n /\ n <= Z.max m (hi + 1) /\
    (cleanupEnd y = Returned -> hi < n) /\
    scanned (cleanupEvents y) = seqZ m (n - m) /\
    Forall sweepEvent (cleanupEvents y) /\
    sprites c2 = sprites c1 /\
    needsTextureSyncIndexRange c2 = needsTextureSyncIndexRange c1 /\
    (isDefined (toBeRemovedIndexRange c1) = isDefined (toBeRemovedTsRange c1) ->
     isDefined (toBeRemovedIndexRange c2) = isDefined (toBeRemovedTsRange c2)) /\
    (forall v, contains (toBeRemovedIndexRange c1) v -> contains (toBeRemovedIndexRange c2) v) /\
    (forall v, contains (toBeRemovedTsRange c1) v -> contains (toBeRemovedTsRange c2) v) /\
    (forall j, m <= j < n -> (forall e, cleanupEnd y = Threw e -> j < n - 1) ->
       swept TransitionTimeMs c1 (cleanupEvents y) j) /\
    (forall e, cleanupEnd y = Threw e -> m < n /\ sweepFaulted c1 (n - 1) e) /\
    (forall j ts, Readd j ts ∈ cleanupEvents y ->
       m <= j < n /\
       contains (toBeRemovedIndexRange c2) j /\ contains (toBeRemovedTsRange c2) ts /\
       exists p view, spriteAt c1 j = Some p /\ pending p = true /\
         spriteView p = Some view /\ ts = TransitionTimeMs view).
Proof.
  intros Hfuel y c2.
  set (R := fun (n : Z) (c : CoordinatorAPI) (evs : list Event) =>
    m <= n /\ n <= Z.max m (hi + 1) /\
    scanned evs = seqZ m (n - m) /\
    Forall sweepEvent evs /\
    sprites c = sprites c1 /\
    needsTextureSyncIndexRange c = needsTextureSyncIndexRange c1 /\
    (isDefined (toBeRemovedIndexRange c1) = isDefined (toBeRemovedTsRange c1) ->
     isDefined (toBeRemovedIndexRange c) = isDefined (toBeRemovedTsRange c)) /\
    (forall v, contains (toBeRemovedIndexRange c1) v -> contains (toBeRemovedIndexRange c) v) /\
    (forall v, contains (toBeRemovedTsRange c1) v -> contains (toBeRemovedTsRange c) v) /\
    (forall j ts, Readd j ts ∈ evs ->
       m <= j < n /\
       contains (toBeRemovedIndexRange c) j /\ contains (toBeRemovedTsRange c) ts /\
       exists p view, spriteAt c1 j = Some p /\ pending p = true /\
         spriteView p = Some view /\ ts = TransitionTimeMs view)).
  set (I := fun (i : Z) (c : CoordinatorAPI) (evs : list Event) =>
    R i c evs /\ forall j, m <= j < i -> swept TransitionTimeMs c1 evs j).
  set (Q := fun (e : Outcome) (n : Z) (c : CoordinatorAPI) (evs : list Event) =>
    e <> OutOfFuel /\ R n c evs /\ (e = Returned -> hi < n) /\
    (forall j, m <= j < n -> (forall err, e = Threw err -> j < n - 1) ->
       swept TransitionTimeMs c1 evs j) /\
    (forall err, e = Threw err -> m < n /\ sweepFaulted c1 (n - 1) err)).
  assert (Hmono : forall evs evs' j,
            swept TransitionTimeMs c1 evs j -> swept TransitionTimeMs c1 (evs ++ evs') j).
  { intros evs evs' j (p & Hp & Hh). exists p. split; [done|].
    intros Hpend. destruct (Hh Hpend) as (v & ? & Hd).
    exists v. split; [done|]. apply elem_of_app; by left. }
  assert (Hseq : forall i, m <= i -> seqZ m (i + 1 - m) = seqZ m (i - m) ++ [i]).
  { intros i Hi. replace (i + 1 - m) with ((i - m) + 1) by lia.
    rewrite seqZ_app by lia. f_equal.
    replace (m + (i - m)) with i by lia. by rewrite seqZ_cons, seqZ_nil by lia. }
  assert (Hstep : forall i c evs, I i c evs -> i <= hi -> forall r c' evs',
      cleanupBody_spec TransitionTimeMs i c (r, c', evs') ->
      R (i + 1) c' (evs ++ evs') /\
      (forall j, m <= j < i -> swept TransitionTimeMs c1 (evs ++ evs') j) /\
      (r = None -> swept TransitionTimeMs c1 (evs ++ evs') i) /\
      (forall err, r = Some err -> sweepFaulted c1 i err)).
  { intros i c evs [(Hlo & Hhi & Hsc & Hev & Hsp & Hnts & Hpair & Hmi & Hmt & Hre) Hsw]
      Hle r c' evs' Hb.
    assert (Hi : spriteAt c i = spriteAt c1 i) by by apply spriteAt_ext.
    assert (Hprev : forall j, m <= j < i -> swept TransitionTimeMs c1 (evs ++ evs') j)
      by (intros j Hj; apply Hmono, Hsw, Hj).
    assert (Hre' : forall j ts, Readd j ts ∈ evs ->
       m <= j < i + 1 /\
       contains (toBeRemovedIndexRange c) j /\ contains (toBeRemovedTsRange c) ts /\
       exists p view, spriteAt c1 j = Some p /\ pending p = true /\
         spriteView p = Some view /\ ts = TransitionTimeMs view).
    { intros j ts Hj. destruct (Hre j ts Hj) as (? & ? & ? & ?).
      split; [lia|]. by split_and!. }
    unfold R, scanned in *. rewrite Hseq by done. rewrite omap_app, Hsc, Forall_app.
    sweep_inv Hb; simpl; (split; [|split; [done|split]]).
    - split_and!; try done; try lia; try (by repeat constructor).
      intros j ts Hj. events. destruct Hj as [Hj|Hj]; [by apply Hre' | naive_solver].
    - done.
    - intros err [= <-]. unfold sweepFaulted. by rewrite <- Hi, Hnone.
    - split_and!; try done; try lia; try (by repeat constructor).
      intros j ts Hj. events. destruct Hj as [Hj|Hj]; [by apply Hre' | naive_solver].
    - intros _. exists p. rewrite <- Hi. split; [done|]. congruence.
    - done.
    - split_and!; try done; try lia; try (by repeat constructor).
      intros j ts Hj. events. destruct Hj as [Hj|Hj]; [by apply Hre' | naive_solver].
    - done.
    - intros err [= <-]. unfold sweepFaulted. by rewrite <- Hi, Hp.
    - split_and!; try done; try lia; try (by repeat constructor).
      + intros _. by rewrite !isDefined_expand.
      + intros v Hv. by apply contains_expand_mono, Hmi.
      + intros v Hv. by apply contains_expand_mono, Hmt.
      + intros j ts Hj. events. destruct Hj as [Hj|[Hj|[Hj|[]]]]; try done.
        * destruct (Hre' j ts Hj) as (Hr & Ha & Hb & Hc).
          split; [done|]. split; [by apply contains_expand_mono|].
          split; [by apply contains_expand_mono|done].
        * injection Hj as -> ->. split; [lia|].
          split; [apply contains_expand_self|]. split; [apply contains_expand_self|].
          exists p, view. by rewrite <- Hi.
    - intros _. exists p. rewrite <- Hi. split; [done|]. intros _.
      exists view. split; [done|]. events. naive_solver.
    - done. }
  destruct (cleanupLoop_rule TransitionTimeMs hi I Q) with (evs := @nil Event)
    (fuel := fuel) (i := m) (c := c1) as [n HQ]; try done.
  - intros i c evs HI Hle.
    pose proof (cleanupBody_cases TransitionTimeMs i c) as Hb.
    destruct (cleanupBody _ i c) as [[r c'] evs'].
    destruct (Hstep i c evs HI Hle r c' evs' Hb) as (H1 & H2 & H3 & H4).
    destruct r as [e|]; unfold I, Q.
    + split_and!; try done.
      * intros j Hj Hlt. apply H2. specialize (Hlt e eq_refl). lia.
      * intros err [= <-]. replace (i + 1 - 1) with i by lia.
        split; [destruct HI as [(? & _) _]; lia | by apply H4].
    + split; [done|]. intros j Hj. destruct (decide (j = i)) as [->|]; [by apply H3|].
      apply H2. lia.
  - intros i c evs [HR Hsw] Hgt. unfold Q. split_and!; try done.
    intros j Hj _. by apply Hsw.
  - unfold I, R. split_and!; try done; try lia.
    + by rewrite seqZ_nil by lia.
    + intros j ts Hj. by apply elem_of_nil in Hj.
  - simpl in HQ. destruct HQ as (H1 & HR & H3 & H4 & H5).
    destruct HR as (R1 & R2 & R3 & R4 & R5 & R6 & R7 & R8 & R9 & R10).
    exists n. split_and!; done.
Qed.

(** ** The three ways through an invocation *)

Local Abbreviation attempt := (tryBlock TransitionTimeMs remaining stepsBetweenChecks).
Local Abbreviation pass := (cleanupPass TransitionTimeMs remaining stepsBetweenChecks).

Lemma runRemoval_failed c :
  isDefined (toBeRemovedIndexRange c) = false \/
  isDefined (toBeRemovedTsRange c) = false ->
  run c = {| final := c;
             outcome := Threw (InternalError "No sprites are queued for removal");
             trace := [] |}.
Proof. apply runRemoval_undefined. Qed.

Lemma runRemoval_gated c lo hi tlo thi :
  toBeRemovedIndexRange c = Bounds lo hi ->
  toBeRemovedTsRange c = Bounds tlo thi ->
  elapsedTimeMs c < tlo ->
  run c = {| final := c; outcome := Returned; trace := [queueRemovalTask] |}.
Proof.
  intros Hi Ht Hlt. unfold runRemoval. rewrite Hi, Ht.
  destruct (Z.ltb_spec (elapsedTimeMs c) tlo); [done|lia].
Qed.

Lemma runRemoval_scan c lo hi tlo thi :
  toBeRemovedIndexRange c = Bounds lo hi ->
  toBeRemovedTsRange c = Bounds tlo thi ->
  tlo <= elapsedTimeMs c ->
  let x := attempt c lo hi in
  let y := pass c lo hi in
  final (run c) = cleanupCoord y /\
  trace (run c) =
    exitEvents x ++ cleanupEvents y ++
    match cleanupEnd y with Returned => requeue (cleanupCoord y) | _ => [] end /\
  outcome (run c) =
    match cleanupEnd y with Returned => tryOutcome (exitEnd x) | o => o end.
Proof.
  intros Hi Ht Hle x y. subst x y.
  unfold cleanupPass, tryBlock, runRemoval, finallyBlock. rewrite Hi, Ht.
  destruct (Z.ltb_spec (elapsedTimeMs c) tlo); [lia|].
  set (x := mainLoop _ _ _ _ _ _ _ _).
  set (y := cleanupLoop _ _ _ _ _).
  destruct (cleanupEnd y) eqn:Hy; simpl; rewrite ?Hy, ?app_nil_r; done.
Qed.

(** An invocation is in one of the three cases. *)
Lemma runRemoval_cases c :
  (isDefined (toBeRemovedIndexRange c) = false \/
   isDefined (toBeRemovedTsRange c) = false) \/
  exists lo hi tlo thi,
    toBeRemovedIndexRange c = Bounds lo hi /\
    toBeRemovedTsRange c = Bounds tlo thi /\
    (elapsedTimeMs c < tlo \/ tlo <= elapsedTimeMs c).
Proof.
  destruct (toBeRemovedIndexRange c) as [|lo hi]; [by left; left|].
  destruct (toBeRemovedTsRange c) as [|tlo thi]; [by left; right|].
  right. exists lo, hi, tlo, thi. split_and!; try done. lia.
Qed.

(** The model never runs out of fuel: [runRemoval] always ends by returning
    or by throwing. *)
Lemma runRemoval_fuel c : outcome (run c) <> OutOfFuel.
Proof.
  destruct (runRemoval_cases c) as [Hu|(lo & hi & tlo & thi & Hi & Ht & [Hlt|Hle])].
  - by rewrite runRemoval_failed.
  - by erewrite runRemoval_gated.
  - destruct (runRemoval_scan c lo hi tlo thi Hi Ht Hle) as (_ & _ & ->).
    pose proof (mainLoop_handled (elapsedTimeMs c) hi lo
      {| coord := setToBeRemovedRanges (clear (toBeRemovedIndexRange c))
                    (clear (toBeRemovedTsRange c)) c; step := 1; polls := 0 |}
      (Z.to_nat (hi - lo + 1)) ltac:(lia)) as (Hx & _).
    destruct (cleanupLoop_spec hi (exitIndex (attempt c lo hi))
      (coord (exitState (attempt c lo hi)))
      (Z.to_nat (hi - exitIndex (attempt c lo hi) + 1)) ltac:(lia)) as (n & Hy & _).
    fold (attempt c lo hi) in Hx. fold (pass c lo hi) in Hy.
    destruct (cleanupEnd (pass c lo hi)); try done.
    by destruct (exitEnd (attempt c lo hi)).
Qed.

(** The facts about the [try] block, stated on the coordinator the
    invocation started from. *)
Lemma attempt_spec c lo hi :
  let x := attempt c lo hi in
  let c1 := coord (exitState x) in
  let now := elapsedTimeMs c in
  exitEnd x <> Exhausted /\
  lo <= exitIndex x <= Z.max lo (hi + 1) /\
  (exitEnd x = Finished -> hi < exitIndex x) /\
  visited (exitEvents x) = seqZ lo (exitIndex x - lo) /\
  Forall loopEvent (exitEvents x) /\
  (forall j, exitIndex x <= j -> spriteAt c1 j = spriteAt c j) /\
  (forall j, lo <= j < exitIndex x ->
     (forall e, exitEnd x = Thrown e -> j < exitIndex x - 1) ->
     handled TransitionTimeMs c now (exitEvents x) j) /\
  (forall e, exitEnd x = Thrown e ->
     lo < exitIndex x /\ faulted c (exitIndex x - 1) e /\
     Flash (exitIndex x - 1) ∉ exitEvents x) /\
  (forall j, Flash j ∈ exitEvents x ->
     lo <= j < exitIndex x /\
     exists p view idx,
       spriteAt c j = Some p /\ pending p = true /\
       spriteView p = Some view /\ index p = Some idx /\
       TransitionTimeMs view <= now /\
       spriteAt c1 j = Some (flash p view) /\
       contains (needsTextureSyncIndexRange c1) idx) /\
  (forall j, Flash j ∉ exitEvents x -> spriteAt c1 j = spriteAt c j) /\
  isDefined (toBeRemovedIndexRange c1) = isDefined (toBeRemovedTsRange c1) /\
  (isDefined (needsTextureSyncIndexRange c) = true ->
   isDefined (needsTextureSyncIndexRange c1) = true) /\
  (forall j ts, Defer j ts ∈ exitEvents x ->
     contains (toBeRemovedIndexRange c1) j /\ contains (toBeRemovedTsRange c1) ts).
Proof.
  intros x c1 now.
  set (s0 := {| coord := setToBeRemovedRanges (clear (toBeRemovedIndexRange c))
                           (clear (toBeRemovedTsRange c)) c; step := 1; polls := 0 |}).
  assert (Hfuel : (Z.to_nat (hi - lo + 1) <= Z.to_nat (hi - lo + 1))%nat) by lia.
  destruct (mainLoop_handled now hi lo s0 _ Hfuel)
    as (H1 & H2 & H3 & H4 & H5 & H6 & H7 & H8 & H9).
  destruct (mainLoop_sprites now hi lo s0 _ Hfuel) as (_ & S1 & S2).
  destruct (mainLoop_ranges now hi lo s0 _ Hfuel) as (R1 & R2 & R3).
  split_and!; try done. by apply R1.
Qed.

(** The facts about the cleanup loop of an invocation. *)
Lemma pass_spec c lo hi :
  let x := attempt c lo hi in
  let m := exitIndex x in
  let c1 := coord (exitState x) in
  let y := pass c lo hi in
  let c2 := cleanupCoord y in
  exists n,
    cleanupEnd y <> OutOfFuel /\
    m <= n <= Z.max m (hi + 1) /\
    (cleanupEnd y = Returned -> hi < n) /\
    scanned (cleanupEvents y) = seqZ m (n - m) /\
    Forall sweepEvent (cleanupEvents y) /\
    sprites c2 = sprites c1 /\
    needsTextureSyncIndexRange c2 = needsTextureSyncIndexRange c1 /\
    isDefined (toBeRemovedIndexRange c2) = isDefined (toBeRemovedTsRange c2) /\
    (forall v, contains (toBeRemovedIndexRange c1) v -> contains (toBeRemovedIndexRange c2) v) /\
    (forall v, contains (toBeRemovedTsRange c1) v -> contains (toBeRemovedTsRange c2) v) /\
    (forall j, m <= j < n -> (forall e, cleanupEnd y = Threw e -> j < n - 1) ->
       swept TransitionTimeMs c1 (cleanupEvents y) j) /\
    (forall e, cleanupEnd y = Threw e -> m < n /\ sweepFaulted c1 (n - 1) e) /\
    (forall j ts, Readd j ts ∈ cleanupEvents y ->
       m <= j < n /\
       contains (toBeRemovedIndexRange c2) j /\ contains (toBeRemovedTsRange c2) ts /\
       exists p view, spriteAt c1 j = Some p /\ pending p = true /\
         spriteView p = Some view /\ ts = TransitionTimeMs view).
Proof.
  intros x m c1 y c2.
  destruct (attempt_spec c lo hi) as (_ & _ & _ & _ & _ & _ & _ & _ & _ & _ & Hpair & _).
  destruct (cleanupLoop_spec hi m c1 (Z.to_nat (hi - m + 1)) ltac:(lia))
    as (n & H1 & H2 & H3 & H4 & H5 & H6 & H7 & H8 & H9 & H10 & H11 & H12 & H13 & H14).
  exists n. split_and!; try done. by apply H9.
Qed.

(** Where the events of an invocation that got past the time gate come
    from: the [try] block, the cleanup loop, or the two tests that end the
    [finally] block. *)
Lemma trace_scan c lo hi tlo thi e :
  toBeRemovedIndexRange c = Bounds lo hi ->
  toBeRemovedTsRange c = Bounds tlo thi ->
  tlo <= elapsedTimeMs c ->
  e ∈ trace (run c) <->
  (loopEvent e /\ e ∈ exitEvents (attempt c lo hi)) \/
  (sweepEvent e /\ e ∈ cleanupEvents (pass c lo hi)) \/
  (cleanupEnd (pass c lo hi) = Returned /\ e ∈ requeue (final (run c))).
Proof.
  intros Hi Ht Hle.
  destruct (runRemoval_scan c lo hi tlo thi Hi Ht Hle) as (-> & -> & _).
  destruct (attempt_spec c lo hi) as (_ & _ & _ & _ & Hx & _).
  destruct (pass_spec c lo hi) as (n & _ & _ & _ & _ & Hy & _).
  rewrite Forall_forall in Hx, Hy. rewrite !elem_of_app. split.
  - intros [He|[He|He]]; [left; split; [by apply Hx|done] | right; left; split; [by apply Hy|done] |].
    right; right.
    destruct (cleanupEnd (pass c lo hi)); try done; by apply elem_of_nil in He.
  - intros [[_ He]|[[_ He]|[Hend He]]]; [by left | (by right; left) |].
    right; right. by rewrite Hend.
Qed.

(** ** What an invocation does to a sprite *)

(** Every slot of the pool holds after the invocation the sprite it held
    before, or that sprite flashed; it is flashed exactly when the trace has
    a [Flash] for the slot, and then the sprite was one marked for removal,
    at rest and due, inside the span of the to-be-removed index range. *)
Lemma runRemoval_sprite c j :
  ((Flash j ∉ trace (run c)) /\ spriteAt (final (run c)) j = spriteAt c j) \/
  (Flash j ∈ trace (run c) /\
   exists p view idx,
     spriteAt c j = Some p /\ pending p = true /\
     spriteView p = Some view /\ index p = Some idx /\
     TransitionTimeMs view <= elapsedTimeMs c /\
     contains (toBeRemovedIndexRange c) j /\
     spriteAt (final (run c)) j = Some (flash p view) /\
     contains (needsTextureSyncIndexRange (final (run c))) idx).
Proof.
  destruct (runRemoval_cases c) as [Hu|(lo & hi & tlo & thi & Hi & Ht & [Hlt|Hle])].
  - left. rewrite runRemoval_failed by done. simpl. split; [|done].
    apply not_elem_of_nil.
  - left. erewrite runRemoval_gated by done. simpl. split; [|done].
    rewrite elem_of_cons, elem_of_nil. naive_solver.
  - pose proof (trace_scan c lo hi tlo thi (Flash j) Hi Ht Hle) as Htr.
    destruct (runRemoval_scan c lo hi tlo thi Hi Ht Hle) as (Hfin & _ & _).
    destruct (attempt_spec c lo hi)
      as (_ & Hm & _ & _ & _ & _ & _ & _ & Hfl & Hnf & _).
    destruct (pass_spec c lo hi) as (n & _ & _ & _ & _ & Hy & Hsp & Hnts & _).
    rewrite Forall_forall in Hy.
    assert (Hin : Flash j ∈ trace (run c) <-> Flash j ∈ exitEvents (attempt c lo hi)).
    { rewrite Htr. split; [|by left].
      intros [[_ ?]|[[Hs _]|[_ Hq]]]; [done|done|].
      apply elem_requeue in Hq. naive_solver. }
    rewrite Hin, Hfin, Hi.
    rewrite (spriteAt_ext _ _ j Hsp), Hnts.
    destruct (decide (Flash j ∈ exitEvents (attempt c lo hi))) as [Hf|Hf].
    + right. split; [done|].
      destruct (Hfl j Hf) as (Hr & p & view & idx & H1 & H2 & H3 & H4 & H5 & H6 & H7).
      exists p, view, idx. split_and!; try done; simpl; lia.
    + left. split; [done|]. by apply Hnf.
Qed.

(** ** When the cleanup completes *)

(** An invocation that got past the time gate and returns, or throws the
    error of the main loop, has completed its cleanup: an error of the
    cleanup loop would have replaced either. *)
Lemma cleanup_completed c lo hi tlo thi :
  toBeRemovedIndexRange c = Bounds lo hi ->
  toBeRemovedTsRange c = Bounds tlo thi ->
  tlo <= elapsedTimeMs c ->
  outcome (run c) = Returned \/
  outcome (run c) = Threw (InternalError "Sprite missing required properties") ->
  cleanupEnd (pass c lo hi) = Returned.
Proof.
  intros Hi Ht Hle Hout.
  destruct (runRemoval_scan c lo hi tlo thi Hi Ht Hle) as (_ & _ & Ho).
  destruct (pass_spec c lo hi)
    as (n & Hfuel & _ & _ & _ & _ & _ & _ & _ & _ & _ & _ & Hthrow & _).
  rewrite Ho in Hout.
  destruct (cleanupEnd (pass c lo hi)) as [|e|] eqn:Hend; [done| |done].
  destruct (Hthrow e eq_refl) as [_ Hf]. unfold sweepFaulted in Hf.
  destruct (spriteAt _ _); [destruct Hf as (_ & _ & ->)|subst e];
    destruct Hout as [?|?]; discriminate.
Qed.

Lemma flashed_loop_only c lo hi tlo thi :
  toBeRemovedIndexRange c = Bounds lo hi ->
  toBeRemovedTsRange c = Bounds tlo thi ->
  tlo <= elapsedTimeMs c ->
  flashed (trace (run c)) = flashed (exitEvents (attempt c lo hi)).
Proof.
  intros Hi Ht Hle.
  destruct (runRemoval_scan c lo hi tlo thi Hi Ht Hle) as (_ & -> & _).
  destruct (pass_spec c lo hi) as (n & _ & _ & _ & _ & Hy & _).
  unfold flashed. rewrite !omap_app.
  assert (Hs : forall l, Forall sweepEvent l ->
            omap (fun e => match e with Flash i => Some i | _ => None end) l = []).
  { induction 1 as [|e l He _ IH]; [done|]. destruct e; try done; apply IH. }
  rewrite (Hs _ Hy). simpl.
  destruct (cleanupEnd (pass c lo hi)); simpl; rewrite ?app_nil_r; try done.
  unfold requeue.
  destruct (isDefined (needsTextureSyncIndexRange _)), (isDefined (toBeRemovedIndexRange _));
    simpl; by rewrite app_nil_r.
Qed.

(** * The claims *)

(** C5.  Invoked while the to-be-removed index range or the to-be-removed
    timestamp range is undefined, [runRemoval] throws the internal error
    'No sprites are queued for removal' at once: the coordinator is left as
    it was, and neither [remaining] nor a queueing hook is called.  In
    particular an invocation that follows one which left the index range
    undefined fails in this way, whatever the clock reads by then. *)
Theorem runRemoval_precondition c :
  (isDefined (toBeRemovedIndexRange c) = false \/
   isDefined (toBeRemovedTsRange c) = false ->
   runRemoval TransitionTimeMs remaining stepsBetweenChecks c =
   {| final := c;
      outcome := Threw (InternalError "No sprites are queued for removal");
      trace := [] |}) /\
  (forall remaining' stepsBetweenChecks' now',
     isDefined
       (toBeRemovedIndexRange
          (final (runRemoval TransitionTimeMs remaining stepsBetweenChecks c))) = false ->
     runRemoval TransitionTimeMs remaining' stepsBetweenChecks'
       (atTime now' (final (runRemoval TransitionTimeMs remaining stepsBetweenChecks c))) =
     {| final :=
          atTime now' (final (runRemoval TransitionTimeMs remaining stepsBetweenChecks c));
        outcome := Threw (InternalError "No sprites are queued for removal");
        trace := [] |}).
Proof.
  split; [apply runRemoval_failed|].
  intros remaining' stepsBetweenChecks' now' Hdrained.
  apply runRemoval_undefined. by left.
Qed.

(** C10.  The to-be-removed index range and the to-be-removed timestamp range
    are defined or undefined together after an invocation whenever they were
    before it, however the invocation ends. *)
Theorem runRemoval_ranges_together c :
  isDefined (toBeRemovedIndexRange c) = isDefined (toBeRemovedTsRange c) ->
  isDefined
    (toBeRemovedIndexRange
       (final (runRemoval TransitionTimeMs remaining stepsBetweenChecks c))) =
  isDefined
    (toBeRemovedTsRange
       (final (runRemoval TransitionTimeMs remaining stepsBetweenChecks c))).
Proof.
  intros Heq.
  destruct (runRemoval_cases c) as [Hu|(lo & hi & tlo & thi & Hi & Ht & [Hlt|Hle])].
  - by rewrite runRemoval_failed.
  - by erewrite runRemoval_gated.
  - destruct (runRemoval_scan c lo hi tlo thi Hi Ht Hle) as (-> & _ & _).
    by destruct (pass_spec c lo hi) as (n & _ & _ & _ & _ & _ & _ & _ & Hpair & _).
Qed.

(** C9.  A sprite that is not both marked [toBeRemoved] and in phase [Rest],
    and a sprite in a slot outside the span of the to-be-removed index range,
    is after the invocation what it was before: same data view, same flags,
    same phase. *)
Theorem runRemoval_frame c j p :
  spriteAt c j = Some p ->
  ~ (toBeRemoved p = true /\ lifecyclePhase p = Rest) \/
  ~ contains (toBeRemovedIndexRange c) j ->
  spriteAt (final (runRemoval TransitionTimeMs remaining stepsBetweenChecks c)) j = Some p.
Proof.
  intros Hp Hout.
  destruct (runRemoval_sprite c j) as [[_ ->]|[_ Hf]]; [done|].
  destruct Hf as (q & view & idx & Hq & Hpend & _ & _ & _ & Hspan & _).
  rewrite Hp in Hq. injection Hq as <-.
  apply pending_true in Hpend. tauto.
Qed.

(** C8.  The only change of phase an invocation makes to a sprite is from
    [Rest] to [NeedsTextureSync], a transition of the lifecycle table, and
    only for a sprite marked [toBeRemoved] whose transition time is not after
    the current time. *)
Theorem runRemoval_phase c j p p' :
  spriteAt c j = Some p ->
  spriteAt (final (runRemoval TransitionTimeMs remaining stepsBetweenChecks c)) j = Some p' ->
  lifecyclePhase p' <> lifecyclePhase p ->
  lifecyclePhase p = Rest /\ lifecyclePhase p' = NeedsTextureSync /\
  legalTransition (lifecyclePhase p) (lifecyclePhase p') = true /\
  toBeRemoved p = true /\
  exists view, spriteView p = Some view /\ TransitionTimeMs view <= elapsedTimeMs c.
Proof.
  intros Hp Hp' Hne.
  destruct (runRemoval_sprite c j) as [[_ Heq]|[_ Hf]]; [congruence|].
  destruct Hf as (q & view & idx & Hq & Hpend & Hview & _ & Hdue & _ & Hq' & _).
  rewrite Hp in Hq. injection Hq as <-.
  rewrite Hp' in Hq'. injection Hq' as ->.
  apply pending_true in Hpend as [Htbr Hrest].
  simpl. rewrite Hrest. split_and!; try done. by exists view.
Qed.

(** C4.  No slot is both gone through by the main loop and scanned (or added
    back to the ranges) by the cleanup loop: the value of [index] the [try]
    block leaves is above every slot the main loop went through and at or
    below every slot the cleanup loop scans. *)
Theorem runRemoval_no_double_counting c :
  (forall i,
     i ∈ visited (trace (runRemoval TransitionTimeMs remaining stepsBetweenChecks c)) ->
     (i ∉ scanned (trace (runRemoval TransitionTimeMs remaining stepsBetweenChecks c))) /\
     (i ∉ readded (trace (runRemoval TransitionTimeMs remaining stepsBetweenChecks c)))) /\
  exists index,
    (forall i,
       i ∈ visited (trace (runRemoval TransitionTimeMs remaining stepsBetweenChecks c)) ->
       i < index) /\
    (forall i,
       i ∈ scanned (trace (runRemoval TransitionTimeMs remaining stepsBetweenChecks c)) ->
       index <= i) /\
    (forall i,
       i ∈ readded (trace (runRemoval TransitionTimeMs remaining stepsBetweenChecks c)) ->
       index <= i).
Proof.
  assert (Hex : exists index,
    (forall i, Visit i ∈ trace (run c) -> i < index) /\
    (forall i, Scan i ∈ trace (run c) -> index <= i) /\
    (forall i ts, Readd i ts ∈ trace (run c) -> index <= i)).
  { destruct (runRemoval_cases c) as [Hu|(lo & hi & tlo & thi & Hi & Ht & [Hlt|Hle])].
    - rewrite runRemoval_failed by done. simpl. exists 0.
      split_and!; intros; by events.
    - erewrite runRemoval_gated by done. simpl. exists 0.
      split_and!; intros; events; naive_solver.
    - exists (exitIndex (attempt c lo hi)).
      destruct (attempt_spec c lo hi) as (_ & Hm & _ & Hvis & _).
      destruct (pass_spec c lo hi)
        as (n & _ & Hn & _ & Hsc & _ & _ & _ & _ & _ & _ & _ & _ & Hre).
      split_and!.
      + intros i Hv. apply (trace_scan c lo hi tlo thi _ Hi Ht Hle) in Hv.
        destruct Hv as [[_ Hv]|[[[] _]|[_ Hq]]]; [|apply elem_requeue in Hq; naive_solver].
        apply elem_visited in Hv. rewrite Hvis, elem_of_seqZ in Hv. lia.
      + intros i Hs. apply (trace_scan c lo hi tlo thi _ Hi Ht Hle) in Hs.
        destruct Hs as [[[] _]|[[_ Hs]|[_ Hq]]]; [|apply elem_requeue in Hq; naive_solver].
        apply elem_scanned in Hs. rewrite Hsc, elem_of_seqZ in Hs. lia.
      + intros i ts Hr. apply (trace_scan c lo hi tlo thi _ Hi Ht Hle) in Hr.
        destruct Hr as [[[] _]|[[_ Hr]|[_ Hq]]]; [|apply elem_requeue in Hq; naive_solver].
        apply Hre in Hr. lia. }
  destruct Hex as (index & Hv & Hs & Hr).
  assert (Hr' : forall i, i ∈ readded (trace (run c)) -> index <= i).
  { intros i Hi. apply elem_readded in Hi as [ts Hi]. by eapply Hr. }
  setoid_rewrite elem_visited. setoid_rewrite elem_scanned.
  split; [|by exists index].
  intros i Hi. split.
  - intros Hsc. specialize (Hv i Hi). specialize (Hs i Hsc). lia.
  - intros Hre. specialize (Hv i Hi). specialize (Hr' i Hre). lia.
Qed.

(** C1, as amended.  Take a sprite in a slot inside the to-be-removed index
    range, whose index is that slot, marked [toBeRemoved], in phase [Rest],
    and whose transition time is at or below the current time.  An invocation
    with unlimited budget that gets past the time gate (the low bound of the
    to-be-removed timestamp range is at or below the current time) and
    returns without throwing leaves the sprite with a data view of the same
    size filled with zeros, its [zeroed] flag set, its phase
    [NeedsTextureSync], and its index inside the needs-texture-sync range. *)
Theorem runRemoval_flashes_due c k p view lowTs highTs :
  contains (toBeRemovedIndexRange c) k ->
  spriteAt c k = Some p ->
  index p = Some k ->
  toBeRemoved p = true ->
  lifecyclePhase p = Rest ->
  spriteView p = Some view ->
  TransitionTimeMs view <= elapsedTimeMs c ->
  (forall n, 0 < remaining n) ->
  toBeRemovedTsRange c = Bounds lowTs highTs ->
  lowTs <= elapsedTimeMs c ->
  outcome (runRemoval TransitionTimeMs remaining stepsBetweenChecks c) = Returned ->
  exists p' view',
    spriteAt (final (runRemoval TransitionTimeMs remaining stepsBetweenChecks c)) k =
      Some p' /\
    spriteView p' = Some view' /\
    Forall (fun x => x = 0) (DataView view') /\
    length (DataView view') = length (DataView view) /\
    zeroed p' = true /\
    lifecyclePhase p' = NeedsTextureSync /\
    contains
      (needsTextureSyncIndexRange
         (final (runRemoval TransitionTimeMs remaining stepsBetweenChecks c))) k.
Proof.
  intros Hspan Hp Hidx Htbr Hrest Hview Hdue Hbud Ht Hgate Hret.
  destruct (toBeRemovedIndexRange c) as [|lo hi] eqn:Hi; [done|]. simpl in Hspan.
  assert (Hend : cleanupEnd (pass c lo hi) = Returned)
    by (eapply cleanup_completed; eauto).
  destruct (runRemoval_scan c lo hi lowTs highTs Hi Ht Hgate) as (_ & _ & Ho).
  rewrite Hret, Hend in Ho.
  destruct (attempt_spec c lo hi) as (_ & Hm & Hfin & _ & _ & _ & Hh & _).
  pose proof (mainLoop_unlimited (elapsedTimeMs c) hi lo
    {| coord := setToBeRemovedRanges (clear (toBeRemovedIndexRange c))
                  (clear (toBeRemovedTsRange c)) c; step := 1; polls := 0 |}
    (Z.to_nat (hi - lo + 1)) Hbud ltac:(lia)) as Hnb.
  fold (attempt c lo hi) in Hnb.
  destruct (exitEnd (attempt c lo hi)) eqn:Hx; try done.
  specialize (Hfin eq_refl).
  destruct (Hh k ltac:(lia) ltac:(done)) as (q & Hq & Hhandled).
  rewrite Hp in Hq. injection Hq as <-.
  destruct (Hhandled ltac:(by apply pending_true)) as (v & ix & Hv & _ & _ & Hflash).
  rewrite Hview in Hv. injection Hv as <-.
  specialize (Hflash Hdue).
  assert (Hin : Flash k ∈ trace (run c)).
  { apply (trace_scan c lo hi lowTs highTs); try done. by left. }
  destruct (runRemoval_sprite c k) as [[Hno _]|[_ Hf]]; [done|].
  destruct Hf as (q & v & ix' & Hq & _ & Hv & Hix & _ & _ & Hq' & Hnts).
  rewrite Hp in Hq. injection Hq as <-.
  rewrite Hview in Hv. injection Hv as <-.
  rewrite Hidx in Hix. injection Hix as <-.
  exists (flash p view), (fill0 view). split_and!; try done.
  - simpl. apply Forall_fmap, Forall_forall. done.
  - simpl. apply length_fmap.
Qed.

(** C2, as amended.  Let [stepsBetweenChecks] be at least 1 and [remaining]
    return a value at or below zero from its first call on.  Then an
    invocation flashes at most [stepsBetweenChecks] sprites, and changes no
    other sprite.  If moreover the invocation gets past the time gate and its
    cleanup completes (it returns, or throws the error of the main loop),
    then the slots the cleanup adds back are exactly the slots of the span
    the main loop did not go through whose sprite is marked [toBeRemoved] and
    in phase [Rest]; each is added back with the transition time of its
    sprite, and is then inside the two to-be-removed ranges. *)
Theorem runRemoval_budget c :
  0 < stepsBetweenChecks ->
  (forall n, remaining n <= 0) ->
  (Z.of_nat
     (length
        (flashed (trace (runRemoval TransitionTimeMs remaining stepsBetweenChecks c))))
   <= stepsBetweenChecks /\
   forall j,
     spriteAt (final (runRemoval TransitionTimeMs remaining stepsBetweenChecks c)) j <>
     spriteAt c j ->
     j ∈ flashed (trace (runRemoval TransitionTimeMs remaining stepsBetweenChecks c))) /\
  (forall lo hi tlo thi,
     toBeRemovedIndexRange c = Bounds lo hi ->
     toBeRemovedTsRange c = Bounds tlo thi ->
     tlo <= elapsedTimeMs c ->
     outcome (runRemoval TransitionTimeMs remaining stepsBetweenChecks c) = Returned \/
     outcome (runRemoval TransitionTimeMs remaining stepsBetweenChecks c) =
       Threw (InternalError "Sprite missing required properties") ->
     (forall j,
        j ∈ readded (trace (runRemoval TransitionTimeMs remaining stepsBetweenChecks c)) <->
        lo <= j <= hi /\
        (j ∉ visited (trace (runRemoval TransitionTimeMs remaining stepsBetweenChecks c))) /\
        exists p,
          spriteAt c j = Some p /\ toBeRemoved p = true /\ lifecyclePhase p = Rest) /\
     (forall j ts,
        Readd j ts ∈ trace (runRemoval TransitionTimeMs remaining stepsBetweenChecks c) ->
        (exists p view,
           spriteAt c j = Some p /\ spriteView p = Some view /\
           ts = TransitionTimeMs view) /\
        contains
          (toBeRemovedIndexRange
             (final (runRemoval TransitionTimeMs remaining stepsBetweenChecks c))) j /\
        contains
          (toBeRemovedTsRange
             (final (runRemoval TransitionTimeMs remaining stepsBetweenChecks c))) ts)).
Proof.
  intros Hsbc Hbud. split; [split|].
  - destruct (runRemoval_cases c) as [Hu|(lo & hi & tlo & thi & Hi & Ht & [Hlt|Hle])].
    + rewrite runRemoval_failed by done. simpl. lia.
    + erewrite runRemoval_gated by done. simpl. lia.
    + erewrite flashed_loop_only by done.
      by apply mainLoop_budget; try lia.
  - intros j Hne. apply elem_flashed.
    destruct (runRemoval_sprite c j) as [[_ Heq]|[Hf _]]; done.
  - intros lo hi tlo thi Hi Ht Hle Hout.
    pose proof (cleanup_completed c lo hi tlo thi Hi Ht Hle Hout) as Hend.
    destruct (runRemoval_scan c lo hi tlo thi Hi Ht Hle) as (Hfin & _ & _).
    destruct (attempt_spec c lo hi) as (_ & Hm & _ & Hvis & _ & Hun & _).
    destruct (pass_spec c lo hi)
      as (n & _ & Hn & Hret & _ & _ & _ & _ & _ & _ & _ & Hsw & _ & Hre).
    specialize (Hret Hend).
    assert (Hreadd : forall j ts, Readd j ts ∈ trace (run c) <->
                                  Readd j ts ∈ cleanupEvents (pass c lo hi)).
    { intros j ts. rewrite (trace_scan c lo hi tlo thi _ Hi Ht Hle). split; [|by right; left].
      intros [[[] _]|[[_ ?]|[_ Hq]]]; [done|]. apply elem_requeue in Hq. naive_solver. }
    assert (Hvisit : forall j, j ∈ visited (trace (run c)) <->
                               lo <= j < exitIndex (attempt c lo hi)).
    { intros j. rewrite elem_visited, (trace_scan c lo hi tlo thi _ Hi Ht Hle).
      rewrite <- elem_visited, Hvis, elem_of_seqZ. split.
      - intros [[_ ?]|[[[] _]|[_ Hq]]]; [lia|]. apply elem_requeue in Hq. naive_solver.
      - intros Hj. left. split; [done|lia]. }
    split.
    + intros j. rewrite elem_readded, Hvisit. split.
      * intros (ts & Hj). apply Hreadd, Hre in Hj.
        destruct Hj as (Hr & _ & _ & p & view & Hp & Hpend & _).
        rewrite Hun in Hp by lia. apply pending_true in Hpend.
        split; [lia|]. split; [lia|]. by exists p.
      * intros (Hspan & Hnv & p & Hp & Htbr & Hrest).
        destruct (Hsw j ltac:(lia) ltac:(intros e He; congruence)) as (q & Hq & Hs).
        rewrite Hun in Hq by lia. rewrite Hp in Hq. injection Hq as <-.
        destruct (Hs ltac:(by apply pending_true)) as (view & _ & Hj).
        exists (TransitionTimeMs view). by apply Hreadd.
    + intros j ts Hj. apply Hreadd, Hre in Hj.
      destruct Hj as (Hr & Hci & Hct & p & view & Hp & _ & Hview & ->).
      rewrite Hun in Hp by lia. rewrite Hfin. split_and!; try done.
      by exists p, view.
Qed.

(** C3, as amended.  Take a sprite in a slot inside the to-be-removed index
    range, whose index is that slot, marked [toBeRemoved], in phase [Rest],
    whose transition time is after the current time and inside the
    to-be-removed timestamp range.  After an invocation whose cleanup
    completes (it returns, or throws the error of the main loop) the sprite
    is as it was, its slot is inside the to-be-removed index range, its
    transition time is inside the to-be-removed timestamp range, and the
    removal task has been queued. *)
Theorem runRemoval_keeps_pending c k p view :
  contains (toBeRemovedIndexRange c) k ->
  contains (toBeRemovedTsRange c) (TransitionTimeMs view) ->
  spriteAt c k = Some p ->
  index p = Some k ->
  toBeRemoved p = true ->
  lifecyclePhase p = Rest ->
  spriteView p = Some view ->
  elapsedTimeMs c < TransitionTimeMs view ->
  outcome (runRemoval TransitionTimeMs remaining stepsBetweenChecks c) = Returned \/
  outcome (runRemoval TransitionTimeMs remaining stepsBetweenChecks c) =
    Threw (InternalError "Sprite missing required properties") ->
  contains
    (toBeRemovedIndexRange
       (final (runRemoval TransitionTimeMs remaining stepsBetweenChecks c))) k /\
  contains
    (toBeRemovedTsRange
       (final (runRemoval TransitionTimeMs remaining stepsBetweenChecks c)))
    (TransitionTimeMs view) /\
  spriteAt (final (runRemoval TransitionTimeMs remaining stepsBetweenChecks c)) k =
    Some p /\
  queueRemovalTask ∈ trace (runRemoval TransitionTimeMs remaining stepsBetweenChecks c).
Proof.
  intros Hspan Hts Hp Hidx Htbr Hrest Hview Hlater Hout.
  destruct (toBeRemovedIndexRange c) as [|lo hi] eqn:Hi; [done|].
  destruct (toBeRemovedTsRange c) as [|tlo thi] eqn:Ht; [done|].
  simpl in Hspan, Hts.
  assert (Hpend : pending p = true) by by apply pending_true.
  destruct (Z.lt_ge_cases (elapsedTimeMs c) tlo) as [Hlt|Hle].
  { erewrite runRemoval_gated by done. simpl. rewrite Hi, Ht. simpl.
    split; [done|]. split; [done|]. split; [done|]. apply elem_of_cons; by left. }
  pose proof (cleanup_completed c lo hi tlo thi Hi Ht Hle Hout) as Hend.
  destruct (runRemoval_scan c lo hi tlo thi Hi Ht Hle) as (Hfin & _ & _).
  destruct (attempt_spec c lo hi)
    as (_ & Hm & _ & _ & _ & Hun & Hh & Hthrow & _ & _ & _ & _ & Hdefer).
  destruct (pass_spec c lo hi)
    as (n & _ & Hn & Hret & _ & _ & _ & _ & _ & Hmi & Hmt & Hsw & _ & Hre).
  specialize (Hret Hend).
  assert (Hin : contains (toBeRemovedIndexRange (final (run c))) k /\
                contains (toBeRemovedTsRange (final (run c))) (TransitionTimeMs view)).
  { rewrite Hfin.
    destruct (Z.lt_ge_cases k (exitIndex (attempt c lo hi))) as [Hvisited|Hnot].
    - assert (Hnf : forall e, exitEnd (attempt c lo hi) = Thrown e ->
                      k < exitIndex (attempt c lo hi) - 1).
      { intros e He. destruct (Hthrow e He) as (_ & Hf & _).
        destruct (decide (k = exitIndex (attempt c lo hi) - 1)) as [Heq|]; [|lia].
        rewrite <- Heq in Hf. unfold faulted in Hf. rewrite Hp in Hf.
        destruct Hf as (_ & [?|?] & _); congruence. }
      destruct (Hh k ltac:(lia) Hnf) as (q & Hq & Hhandled).
      rewrite Hp in Hq. injection Hq as <-.
      destruct (Hhandled Hpend) as (v & ix & Hv & _ & Hd & _).
      rewrite Hview in Hv. injection Hv as <-.
      destruct (Hdefer _ _ (Hd Hlater)). split; [by apply Hmi | by apply Hmt].
    - destruct (Hsw k ltac:(lia) ltac:(intros e He; congruence)) as (q & Hq & Hs).
      rewrite Hun in Hq by lia. rewrite Hp in Hq. injection Hq as <-.
      destruct (Hs Hpend) as (v & Hv & Hj).
      rewrite Hview in Hv. injection Hv as <-.
      apply Hre in Hj. tauto. }
  destruct Hin as [Hin1 Hin2]. split_and!; try done.
  - destruct (runRemoval_sprite c k) as [[_ ->]|[_ Hf]]; [done|].
    destruct Hf as (q & v & ix & Hq & _ & Hv & _ & Hdue & _).
    rewrite Hp in Hq. injection Hq as <-.
    rewrite Hview in Hv. injection Hv as <-. lia.
  - apply (trace_scan c lo hi tlo thi _ Hi Ht Hle). right; right.
    split; [done|]. apply elem_requeue. right. split; [done|].
    by eapply contains_isDefined.
Qed.

(** C6, as amended.  When an invocation gets past the time gate and its
    cleanup loop completes (the invocation returns, be it after a [break],
    or throws the error of the main loop), the texture-sync task is queued
    if and only if the needs-texture-sync range is defined at that point, as
    it is in particular when it was defined at entry, and the removal task
    is queued again if and only if the to-be-removed index range is defined
    at that point. *)
Theorem runRemoval_requeues c lo hi tlo thi :
  toBeRemovedIndexRange c = Bounds lo hi ->
  toBeRemovedTsRange c = Bounds tlo thi ->
  tlo <= elapsedTimeMs c ->
  outcome (runRemoval TransitionTimeMs remaining stepsBetweenChecks c) = Returned \/
  outcome (runRemoval TransitionTimeMs remaining stepsBetweenChecks c) =
    Threw (InternalError "Sprite missing required properties") ->
  (queueTextureSync ∈ trace (runRemoval TransitionTimeMs remaining stepsBetweenChecks c) <->
   isDefined
     (needsTextureSyncIndexRange
        (final (runRemoval TransitionTimeMs remaining stepsBetweenChecks c))) = true) /\
  (queueRemovalTask ∈ trace (runRemoval TransitionTimeMs remaining stepsBetweenChecks c) <->
   isDefined
     (toBeRemovedIndexRange
        (final (runRemoval TransitionTimeMs remaining stepsBetweenChecks c))) = true) /\
  (isDefined (needsTextureSyncIndexRange c) = true ->
   queueTextureSync ∈ trace (runRemoval TransitionTimeMs remaining stepsBetweenChecks c)).
Proof.
  intros Hi Ht Hle Hout.
  pose proof (cleanup_completed c lo hi tlo thi Hi Ht Hle Hout) as Hend.
  assert (Hq : forall e, e = queueTextureSync \/ e = queueRemovalTask ->
            e ∈ trace (run c) <-> e ∈ requeue (final (run c))).
  { intros e He. rewrite (trace_scan c lo hi tlo thi _ Hi Ht Hle). split.
    - intros [[Hl _]|[[Hs _]|[_ ?]]]; [| |done]; by destruct He as [-> | ->].
    - intros Hin. by right; right. }
  assert (Hts : queueTextureSync ∈ trace (run c) <->
                isDefined (needsTextureSyncIndexRange (final (run c))) = true).
  { rewrite Hq by by left. rewrite elem_requeue. naive_solver. }
  split; [done|]. split.
  - rewrite Hq by by right. rewrite elem_requeue. naive_solver.
  - intros Hdef. apply Hts.
    destruct (runRemoval_scan c lo hi tlo thi Hi Ht Hle) as (-> & _ & _).
    destruct (attempt_spec c lo hi) as (_ & _ & _ & _ & _ & _ & _ & _ & _ & _ & _ & Hnts & _).
    destruct (pass_spec c lo hi) as (n & _ & _ & _ & _ & _ & _ & -> & _).
    by apply Hnts.
Qed.

(** C7, as amended.  Let a sprite marked [toBeRemoved] and in phase [Rest]
    lack its sprite view when the main loop or the cleanup loop comes to it,
    or its index when the main loop does.  The invocation throws instead of
    skipping the sprite: an internal error whenever every slot of the span
    holds a sprite, and always so when the cleanup loop met the fault.  The
    sprite is left as it was, and what was done before stays done: the
    sprites flashed are flashed and inside the needs-texture-sync range, the
    sprites deferred are inside the two to-be-removed ranges.  After a fault
    of the main loop the cleanup loop runs from the next slot, and adds back
    the sprites it comes to, as far as the first slot at which it throws
    itself.  If there is no such slot in the rest of the span, the error
    thrown is the one of the main loop, and the texture sync and the removal
    task are queued exactly when their ranges are defined.  If there is one,
    and likewise when the cleanup loop met the fault, the cleanup is cut
    short there: no slot after it is scanned or added back, and neither task
    is queued. *)
Theorem runRemoval_fault c k p :
  spriteAt c k = Some p ->
  toBeRemoved p = true ->
  lifecyclePhase p = Rest ->
  (Visit k ∈ trace (runRemoval TransitionTimeMs remaining stepsBetweenChecks c) /\
   (spriteView p = None \/ index p = None)) \/
  (Scan k ∈ trace (runRemoval TransitionTimeMs remaining stepsBetweenChecks c) /\
   spriteView p = None) ->
  (exists e,
     outcome (runRemoval TransitionTimeMs remaining stepsBetweenChecks c) = Threw e) /\
  ((forall j, contains (toBeRemovedIndexRange c) j -> is_Some (spriteAt c j)) ->
   exists message,
     outcome (runRemoval TransitionTimeMs remaining stepsBetweenChecks c) =
     Threw (InternalError message)) /\
  (Scan k ∈ trace (runRemoval TransitionTimeMs remaining stepsBetweenChecks c) ->
   outcome (runRemoval TransitionTimeMs remaining stepsBetweenChecks c) =
   Threw (InternalError "Sprite lacks a SpriteView")) /\
  spriteAt (final (runRemoval TransitionTimeMs remaining stepsBetweenChecks c)) k =
    Some p /\
  (forall j,
     Flash j ∈ trace (runRemoval TransitionTimeMs remaining stepsBetweenChecks c) ->
     exists q view idx,
       spriteAt c j = Some q /\ spriteView q = Some view /\ index q = Some idx /\
       spriteAt (final (runRemoval TransitionTimeMs remaining stepsBetweenChecks c)) j =
         Some (flash q view) /\
       contains
         (needsTextureSyncIndexRange
            (final (runRemoval TransitionTimeMs remaining stepsBetweenChecks c))) idx) /\
  (forall j ts,
     Defer j ts ∈ trace (runRemoval TransitionTimeMs remaining stepsBetweenChecks c) ->
     contains
       (toBeRemovedIndexRange
          (final (runRemoval TransitionTimeMs remaining stepsBetweenChecks c))) j /\
     contains
       (toBeRemovedTsRange
          (final (runRemoval TransitionTimeMs remaining stepsBetweenChecks c))) ts) /\
  (Visit k ∈ trace (runRemoval TransitionTimeMs remaining stepsBetweenChecks c) ->
   forall j, k < j -> contains (toBeRemovedIndexRange c) j ->
     (forall i, k < i < j -> cleanupThrowsAt c i = false) ->
     Scan j ∈ trace (runRemoval TransitionTimeMs remaining stepsBetweenChecks c) /\
     forall q view,
       spriteAt c j = Some q -> toBeRemoved q = true -> lifecyclePhase q = Rest ->
       spriteView q = Some view ->
       Readd j (TransitionTimeMs view) ∈
         trace (runRemoval TransitionTimeMs remaining stepsBetweenChecks c) /\
       contains
         (toBeRemovedIndexRange
            (final (runRemoval TransitionTimeMs remaining stepsBetweenChecks c))) j /\
       contains
         (toBeRemovedTsRange
            (final (runRemoval TransitionTimeMs remaining stepsBetweenChecks c)))
         (TransitionTimeMs view)) /\
  (Visit k ∈ trace (runRemoval TransitionTimeMs remaining stepsBetweenChecks c) ->
   (forall j, k < j -> contains (toBeRemovedIndexRange c) j ->
      cleanupThrowsAt c j = false) ->
   outcome (runRemoval TransitionTimeMs remaining stepsBetweenChecks c) =
     Threw (InternalError "Sprite missing required properties") /\
   (queueTextureSync ∈ trace (runRemoval TransitionTimeMs remaining stepsBetweenChecks c) <->
    isDefined
      (needsTextureSyncIndexRange
         (final (runRemoval TransitionTimeMs remaining stepsBetweenChecks c))) = true) /\
   (queueRemovalTask ∈ trace (runRemoval TransitionTimeMs remaining stepsBetweenChecks c) <->
    isDefined
      (toBeRemovedIndexRange
         (final (runRemoval TransitionTimeMs remaining stepsBetweenChecks c))) = true)) /\
  (forall b,
     (b = k /\
      Scan k ∈ trace (runRemoval TransitionTimeMs remaining stepsBetweenChecks c)) \/
     (k < b /\
      Visit k ∈ trace (runRemoval TransitionTimeMs remaining stepsBetweenChecks c) /\
      contains (toBeRemovedIndexRange c) b /\ cleanupThrowsAt c b = true) ->
     (queueTextureSync ∉ trace (runRemoval TransitionTimeMs remaining stepsBetweenChecks c)) /\
     (queueRemovalTask ∉ trace (runRemoval TransitionTimeMs remaining stepsBetweenChecks c)) /\
     forall i, b < i ->
       (Scan i ∉ trace (runRemoval TransitionTimeMs remaining stepsBetweenChecks c)) /\
       forall ts,
         Readd i ts ∉ trace (runRemoval TransitionTimeMs remaining stepsBetweenChecks c)).
Proof.
  intros Hp Htbr Hrest Hmet.
  assert (Hpend : pending p = true) by by apply pending_true.
  assert (Hbad : spriteView p = None \/ index p = None) by (destruct Hmet as [[_ ?]|[_ ?]]; tauto).
  assert (Hkept : spriteAt (final (run c)) k = Some p).
  { destruct (runRemoval_sprite c k) as [[_ ->]|[_ Hf]]; [done|].
    destruct Hf as (q & v & ix & Hq & _ & Hv & Hix & _).
    rewrite Hp in Hq. injection Hq as <-. destruct Hbad; congruence. }
  assert (Hprogress : forall j, Flash j ∈ trace (run c) ->
     exists q view idx,
       spriteAt c j = Some q /\ spriteView q = Some view /\ index q = Some idx /\
       spriteAt (final (run c)) j = Some (flash q view) /\
       contains (needsTextureSyncIndexRange (final (run c))) idx).
  { intros j Hj. destruct (runRemoval_sprite c j) as [[Hno _]|[_ Hf]]; [done|].
    destruct Hf as (q & v & ix & Hq & _ & Hv & Hix & _ & _ & Hq' & Hnts).
    by exists q, v, ix. }
  destruct (runRemoval_cases c) as [Hu|(lo & hi & tlo & thi & Hi & Ht & [Hlt|Hle])].
  { rewrite runRemoval_failed in Hmet by done. simpl in Hmet.
    destruct Hmet as [[Hm _]|[Hm _]]; by apply elem_of_nil in Hm. }
  { erewrite runRemoval_gated in Hmet by done. simpl in Hmet.
    destruct Hmet as [[Hm _]|[Hm _]]; apply elem_of_cons in Hm as [?|Hm];
      try done; by apply elem_of_nil in Hm. }
  destruct (runRemoval_scan c lo hi tlo thi Hi Ht Hle) as (Hfin & _ & Ho).
  destruct (attempt_spec c lo hi)
    as (_ & Hm & _ & Hvis & _ & Hun & Hh & Hthrow & _ & _ & _ & _ & Hdefer).
  destruct (pass_spec c lo hi)
    as (n & Hfuel & Hn & Hret & Hsc & _ & _ & _ & _ & Hmi & Hmt & Hsw & Hsthrow & Hre).
  set (m := exitIndex (attempt c lo hi)) in *.
  (* where the events of the trace come from *)
  assert (HinV : forall i, Visit i ∈ trace (run c) -> lo <= i < m).
  { intros i Hv. apply (trace_scan c lo hi tlo thi _ Hi Ht Hle) in Hv.
    destruct Hv as [[_ Hv]|[[[] _]|[_ Hq]]]; [|apply elem_requeue in Hq; naive_solver].
    apply elem_visited in Hv. rewrite Hvis, elem_of_seqZ in Hv. lia. }
  assert (HinS : forall i, Scan i ∈ trace (run c) <-> m <= i < n).
  { intros i. rewrite (trace_scan c lo hi tlo thi _ Hi Ht Hle). split.
    - intros [[[] _]|[[_ Hs]|[_ Hq]]]; [|apply elem_requeue in Hq; naive_solver].
      apply elem_scanned in Hs. rewrite Hsc, elem_of_seqZ in Hs. lia.
    - intros Hr. right; left. split; [done|].
      apply elem_scanned. rewrite Hsc, elem_of_seqZ. lia. }
  assert (HinR : forall i ts, Readd i ts ∈ trace (run c) <->
                              Readd i ts ∈ cleanupEvents (pass c lo hi)).
  { intros i ts. rewrite (trace_scan c lo hi tlo thi _ Hi Ht Hle). split; [|by right; left].
    intros [[[] _]|[[_ ?]|[_ Hq]]]; [done|]. apply elem_requeue in Hq. naive_solver. }
  assert (HinQ : forall e, e = queueTextureSync \/ e = queueRemovalTask ->
            e ∈ trace (run c) <->
            cleanupEnd (pass c lo hi) = Returned /\ e ∈ requeue (final (run c))).
  { intros e He. rewrite (trace_scan c lo hi tlo thi _ Hi Ht Hle). split.
    - intros [[Hl _]|[[Hs _]|?]]; [| |done]; by destruct He as [-> | ->].
    - intros Hin. by right; right. }
  (* a fault of the main loop at slot [k] *)
  assert (Hmain : Visit k ∈ trace (run c) ->
            exitEnd (attempt c lo hi) =
              Thrown (InternalError "Sprite missing required properties") /\
            m = k + 1).
  { intros Hv. apply HinV in Hv.
    assert (Hnot : ~ handled TransitionTimeMs c (elapsedTimeMs c)
                     (exitEvents (attempt c lo hi)) k).
    { intros (q & Hq & Hhandled). rewrite Hp in Hq. injection Hq as <-.
      destruct (Hhandled Hpend) as (v & ix & Hv' & Hix & _).
      destruct Hbad; congruence. }
    destruct (exitEnd (attempt c lo hi)) as [| |e|] eqn:Hend;
      try (exfalso; apply Hnot, Hh; [lia | intros e He; congruence]).
    destruct (Hthrow e eq_refl) as (_ & Hf & _).
    destruct (decide (k = m - 1)) as [Heq|Hne].
    - rewrite <- Heq in Hf. unfold faulted in Hf. rewrite Hp in Hf.
      destruct Hf as (_ & _ & ->). split; [done|lia].
    - exfalso. apply Hnot, Hh; [lia|]. intros e' _. lia. }
  (* the slot at which the cleanup loop throws, and the slots before it *)
  assert (Hstuck : forall e, cleanupEnd (pass c lo hi) = Threw e ->
            m < n /\ n - 1 <= hi /\ cleanupThrowsAt c (n - 1) = true /\
            (is_Some (spriteAt c (n - 1)) -> e = InternalError "Sprite lacks a SpriteView")).
  { intros e He. destruct (Hsthrow e He) as [Hlt Hf]. split; [done|]. split; [lia|].
    unfold sweepFaulted in Hf. rewrite Hun in Hf by lia. unfold cleanupThrowsAt.
    destruct (spriteAt c (n - 1)) as [q|]; [|split; [done|by intros [? ?]]].
    destruct Hf as (-> & -> & ->). done. }
  assert (Hpassed : forall j, m <= j < n ->
            (forall e, cleanupEnd (pass c lo hi) = Threw e -> j < n - 1) ->
            cleanupThrowsAt c j = false /\
            forall q view, spriteAt c j = Some q -> pending q = true ->
              spriteView q = Some view ->
              Readd j (TransitionTimeMs view) ∈ cleanupEvents (pass c lo hi)).
  { intros j Hj Hbefore. destruct (Hsw j Hj Hbefore) as (q & Hq & Hswept).
    rewrite Hun in Hq by lia. unfold cleanupThrowsAt. rewrite Hq. split.
    - destruct (pending q); [|done].
      destruct (Hswept eq_refl) as (v & -> & _). done.
    - intros q' view [= <-] Hqp Hqv.
      destruct (Hswept Hqp) as (v & Hv & Hin). rewrite Hqv in Hv. by injection Hv as <-. }
  assert (Hlast : Scan k ∈ trace (run c) ->
            k = n - 1 /\
            cleanupEnd (pass c lo hi) = Threw (InternalError "Sprite lacks a SpriteView")).
  { intros Hs. apply HinS in Hs.
    assert (Hnot : cleanupThrowsAt c k = true).
    { unfold cleanupThrowsAt. rewrite Hp, Hpend.
      destruct Hmet as [[Hv _]|[_ ->]]; [apply HinV in Hv; lia|done]. }
    destruct (cleanupEnd (pass c lo hi)) as [|e|] eqn:Hce; [| |done].
    - destruct (Hpassed k Hs) as [Hok _]; [intros e He; congruence|congruence].
    - destruct (Hstuck e eq_refl) as (_ & _ & _ & Herr).
      destruct (decide (k = n - 1)) as [Heq|Hne].
      + split; [done|]. rewrite <- Heq, Hp in Herr. by rewrite Herr.
      + destruct (Hpassed k Hs) as [Hok _]; [intros e' _; lia|congruence]. }
  assert (Hthrows : exists e, outcome (run c) = Threw e).
  { rewrite Ho.
    destruct (cleanupEnd (pass c lo hi)) as [|e|] eqn:Hce; [|by eexists|done].
    destruct Hmet as [[Hv _]|[Hs _]].
    - destruct (Hmain Hv) as [-> _]. by eexists.
    - by destruct (Hlast Hs). }
  split; [done|]. split; [|split; [|split; [done|split; [done|split; [|split; [|split]]]]]].
  - (* an internal error, in a pool that covers the span *)
    intros Hcover. rewrite Ho.
    destruct (cleanupEnd (pass c lo hi)) as [|e|] eqn:Hce; [| |done].
    + destruct Hmet as [[Hv _]|[Hs _]].
      * destruct (Hmain Hv) as [-> _]. by eexists.
      * by destruct (Hlast Hs).
    + destruct (Hstuck e eq_refl) as (Hlt & Hhi & _ & Herr).
      rewrite Herr; [by eexists|]. apply Hcover. rewrite Hi. simpl. lia.
  - (* the fault is one of the cleanup loop *)
    intros Hs. destruct (Hlast Hs) as [_ Hce]. by rewrite Ho, Hce.
  - (* the sprites deferred *)
    intros j ts Hj. apply (trace_scan c lo hi tlo thi _ Hi Ht Hle) in Hj.
    destruct Hj as [[_ Hj]|[[[] _]|[_ Hq]]]; [|apply elem_requeue in Hq; naive_solver].
    destruct (Hdefer j ts Hj). rewrite Hfin. split; [by apply Hmi | by apply Hmt].
  - (* the cleanup loop after a fault of the main loop *)
    intros Hv j Hkj Hspan Hclean.
    destruct (Hmain Hv) as [_ Hmk].
    rewrite Hi in Hspan. simpl in Hspan.
    assert (Hjn : m <= j < n).
    { split; [lia|].
      destruct (cleanupEnd (pass c lo hi)) as [|e|] eqn:Hce;
        [specialize (Hret eq_refl); lia| |done].
      destruct (Hstuck e eq_refl) as (Hlt & _ & Hblock & _).
      destruct (Z.lt_ge_cases j n) as [|Hge]; [done|].
      rewrite Hclean in Hblock by lia. done. }
    split; [by apply HinS|].
    intros q view Hq Hqt Hqr Hqv.
    assert (Hin : Readd j (TransitionTimeMs view) ∈ cleanupEvents (pass c lo hi)).
    { eapply (Hpassed j Hjn); [|done|by apply pending_true|done].
      intros e He. destruct (Hstuck e He) as (_ & _ & Hblock & _).
      destruct (decide (j = n - 1)) as [Heq|]; [|lia].
      rewrite <- Heq in Hblock. unfold cleanupThrowsAt in Hblock.
      rewrite Hq, Hqv, andb_false_r in Hblock. done. }
    split; [by apply HinR|]. rewrite Hfin.
    destruct (Hre _ _ Hin) as (_ & ? & ? & _). done.
  - (* the cleanup completes *)
    intros Hv Hclean. destruct (Hmain Hv) as [Hend Hmk].
    apply HinV in Hv.
    assert (Hce : cleanupEnd (pass c lo hi) = Returned).
    { destruct (cleanupEnd (pass c lo hi)) as [|e|] eqn:Hce; [done| |done].
      destruct (Hstuck e eq_refl) as (Hlt & Hhi & Hblock & _).
      rewrite Hclean in Hblock; [done|lia|]. rewrite Hi. simpl. lia. }
    rewrite Ho, Hce, Hend. split; [done|].
    rewrite !HinQ by tauto. rewrite !elem_requeue. naive_solver.
  - (* the cleanup is cut short *)
    intros b Hb.
    assert (Hcut : exists e, cleanupEnd (pass c lo hi) = Threw e /\ n - 1 <= b).
    { destruct Hb as [[-> Hs]|(Hkb & Hv & Hspan & Hblock)].
      - destruct (Hlast Hs) as [Hk Hce]. eexists. split; [done|lia].
      - destruct (Hmain Hv) as [_ Hmk]. rewrite Hi in Hspan. simpl in Hspan.
        destruct (cleanupEnd (pass c lo hi)) as [|e|] eqn:Hce; [| |done].
        + specialize (Hret eq_refl).
          destruct (Hpassed b) as [Hok _]; [lia|intros e He; congruence|congruence].
        + exists e. split; [done|].
          destruct (Z.lt_ge_cases b (n - 1)) as [Hlt|]; [|done].
          destruct (Hpassed b) as [Hok _]; [lia|intros e' _; lia|congruence]. }
    destruct Hcut as (e & Hce & Hnb).
    split_and!.
    + rewrite HinQ by tauto. rewrite Hce. by intros [? _].
    + rewrite HinQ by tauto. rewrite Hce. by intros [? _].
    + intros i Hbi. split.
      * rewrite HinS. lia.
      * intros ts Hr. apply HinR, Hre in Hr. lia.
Qed.

End Proofs.

(** * The claims on concrete pools *)

Ltac in_trace := vm_compute; repeat constructor.

(** C5 on an example: an invocation with nothing queued fails and changes
    nothing, and so does the one that follows an invocation which removed
    both sprites of the pool. *)
Lemma runRemoval_precondition_example :
  runRemoval firstAttribute unlimited 1 exampleUndefined =
    {| final := exampleUndefined;
       outcome := Threw (InternalError "No sprites are queued for removal");
       trace := [] |} /\
  runRemoval firstAttribute exhausted 5
    (atTime 60 (final (runRemoval firstAttribute unlimited 1 exampleTwoDue))) =
    {| final := atTime 60 (final (runRemoval firstAttribute unlimited 1 exampleTwoDue));
       outcome := Threw (InternalError "No sprites are queued for removal");
       trace := [] |}.
Proof.
  split.
  - apply (proj1 (runRemoval_precondition firstAttribute unlimited 1 exampleUndefined)).
    left. reflexivity.
  - apply (proj2 (runRemoval_precondition firstAttribute unlimited 1 exampleTwoDue)).
    reflexivity.
Defined.

(** C10 on an example. *)
Lemma runRemoval_ranges_together_example :
  isDefined (toBeRemovedIndexRange (final (runRemoval firstAttribute exhausted 1 exampleMixed))) =
  isDefined (toBeRemovedTsRange (final (runRemoval firstAttribute exhausted 1 exampleMixed))).
Proof.
  apply (runRemoval_ranges_together firstAttribute exhausted 1 exampleMixed).
  reflexivity.
Defined.

(** C9 on an example: the sprite of slot 3 is due, but outside the span. *)
Lemma runRemoval_frame_example :
  spriteAt (final (runRemoval firstAttribute unlimited 1 exampleMixed)) 3 = Some (dueSprite 3).
Proof.
  apply (runRemoval_frame firstAttribute unlimited 1 exampleMixed 3 (dueSprite 3)).
  - reflexivity.
  - right. simpl. lia.
Defined.

(** C8 on an example: the sprite of slot 0 goes from [Rest] to
    [NeedsTextureSync]. *)
Lemma runRemoval_phase_example :
  lifecyclePhase (dueSprite 0) = Rest /\
  lifecyclePhase (flash (dueSprite 0) {| DataView := [10; 3; 7] |}) = NeedsTextureSync /\
  legalTransition (lifecyclePhase (dueSprite 0))
    (lifecyclePhase (flash (dueSprite 0) {| DataView := [10; 3; 7] |})) = true /\
  toBeRemoved (dueSprite 0) = true /\
  exists view, spriteView (dueSprite 0) = Some view /\
               firstAttribute view <= elapsedTimeMs exampleMixed.
Proof.
  apply (runRemoval_phase firstAttribute unlimited 1 exampleMixed 0).
  - reflexivity.
  - reflexivity.
  - simpl. discriminate.
Defined.

(** The amended C7 on two examples.  In the first, with time always left,
    the main loop flashes the sprite of slot 0, defers the one of slot 1 and
    meets a sprite without view in slot 2.  The invocation throws the error
    of the main loop; slot 0 stays flashed and slot 1 inside the index range;
    the cleanup loop scans slot 3 and adds its sprite back; and both tasks
    are queued.  In the second the main loop flashes slot 0 and meets a
    sprite without view in slot 1; the cleanup loop adds slot 2 back and
    throws at slot 3: slot 4 is not scanned and neither task is queued. *)
Lemma runRemoval_fault_example :
  (outcome (runRemoval firstAttribute unlimited 1 exampleCleanupFault) =
     Threw (InternalError "Sprite missing required properties") /\
   spriteAt (final (runRemoval firstAttribute unlimited 1 exampleCleanupFault)) 2 =
     Some (viewlessSprite 2) /\
   (exists q view idx,
      spriteAt exampleCleanupFault 0 = Some q /\ spriteView q = Some view /\
      index q = Some idx /\
      spriteAt (final (runRemoval firstAttribute unlimited 1 exampleCleanupFault)) 0 =
        Some (flash q view) /\
      contains
        (needsTextureSyncIndexRange
           (final (runRemoval firstAttribute unlimited 1 exampleCleanupFault))) idx) /\
   contains
     (toBeRemovedIndexRange
        (final (runRemoval firstAttribute unlimited 1 exampleCleanupFault))) 1 /\
   Scan 3 ∈ trace (runRemoval firstAttribute unlimited 1 exampleCleanupFault) /\
   Readd 3 100 ∈ trace (runRemoval firstAttribute unlimited 1 exampleCleanupFault) /\
   queueTextureSync ∈ trace (runRemoval firstAttribute unlimited 1 exampleCleanupFault) /\
   queueRemovalTask ∈ trace (runRemoval firstAttribute unlimited 1 exampleCleanupFault)) /\
  ((exists message,
      outcome (runRemoval firstAttribute unlimited 1 exampleCutShort) =
      Threw (InternalError message)) /\
   Readd 2 100 ∈ trace (runRemoval firstAttribute unlimited 1 exampleCutShort) /\
   (Scan 4 ∉ trace (runRemoval firstAttribute unlimited 1 exampleCutShort)) /\
   (queueTextureSync ∉ trace (runRemoval firstAttribute unlimited 1 exampleCutShort)) /\
   (queueRemovalTask ∉ trace (runRemoval firstAttribute unlimited 1 exampleCutShort))).
Proof.
  split.
  - assert (Hvisit : Visit 2 ∈ trace (runRemoval firstAttribute unlimited 1 exampleCleanupFault))
      by in_trace.
    assert (Hflash : Flash 0 ∈ trace (runRemoval firstAttribute unlimited 1 exampleCleanupFault))
      by in_trace.
    assert (Hdefer : Defer 1 100 ∈
                       trace (runRemoval firstAttribute unlimited 1 exampleCleanupFault))
      by in_trace.
    assert (Hrest : forall j, 2 < j ->
                      contains (toBeRemovedIndexRange exampleCleanupFault) j ->
                      cleanupThrowsAt exampleCleanupFault j = false).
    { intros j Hlow Hj. simpl in Hj. assert (Heq : j = 3) by lia. by rewrite Heq. }
    destruct (runRemoval_fault firstAttribute unlimited 1 exampleCleanupFault
                2 (viewlessSprite 2)
                eq_refl eq_refl eq_refl (or_introl (conj Hvisit (or_introl eq_refl))))
      as (_ & _ & _ & Hkept & Hflashed & Hdeferred & Hscans & Hcompletes & _).
    destruct (Hcompletes Hvisit Hrest) as (Hout & Hsync & Hremoval).
    destruct (Hscans Hvisit 3) as [Hscan Hreadd].
    { lia. }
    { simpl. lia. }
    { intros i Hi. lia. }
    destruct (Hreadd (laterSprite 3) {| DataView := [100; 3; 7] |}
                eq_refl eq_refl eq_refl eq_refl) as (Hadded & _ & _).
    split; [exact Hout|]. split; [exact Hkept|].
    split; [exact (Hflashed 0 Hflash)|].
    split; [exact (proj1 (Hdeferred 1 100 Hdefer))|].
    split; [exact Hscan|]. split; [exact Hadded|].
    split; [apply Hsync | apply Hremoval]; reflexivity.
  - assert (Hvisit : Visit 1 ∈ trace (runRemoval firstAttribute unlimited 1 exampleCutShort))
      by in_trace.
    assert (Hcover : forall j, contains (toBeRemovedIndexRange exampleCutShort) j ->
                       is_Some (spriteAt exampleCutShort j)).
    { intros j Hj. simpl in Hj.
      assert (Hcases : j = 0 \/ j = 1 \/ j = 2 \/ j = 3 \/ j = 4) by lia.
      destruct Hcases as [-> | [-> | [-> | [-> | ->]]]]; vm_compute; eexists; reflexivity. }
    destruct (runRemoval_fault firstAttribute unlimited 1 exampleCutShort
                1 (viewlessSprite 1)
                eq_refl eq_refl eq_refl (or_introl (conj Hvisit (or_introl eq_refl))))
      as (_ & Hinternal & _ & _ & _ & _ & Hscans & _ & Hcut).
    destruct (Hscans Hvisit 2) as [_ Hreadd].
    { lia. }
    { simpl. lia. }
    { intros i Hi. lia. }
    destruct (Hreadd (laterSprite 2) {| DataView := [100; 3; 7] |}
                eq_refl eq_refl eq_refl eq_refl) as (Hadded & _ & _).
    destruct (Hcut 3) as (Hsync & Hremoval & Hafter).
    { right. split; [lia|]. split; [exact Hvisit|]. split; [simpl; lia|reflexivity]. }
    split; [exact (Hinternal Hcover)|]. split; [exact Hadded|].
    split; [exact (proj1 (Hafter 4 ltac:(lia)))|].
    split; [exact Hsync | exact Hremoval].
Defined.

(** The amended C1 on an example: slot 0 of the mixed pool. *)
Lemma runRemoval_flashes_due_example :
  exists p' view',
    spriteAt (final (runRemoval firstAttribute unlimited 1 exampleMixed)) 0 = Some p' /\
    spriteView p' = Some view' /\
    Forall (fun x => x = 0) (DataView view') /\
    length (DataView view') = length [10; 3; 7] /\
    zeroed p' = true /\
    lifecyclePhase p' = NeedsTextureSync /\
    contains (needsTextureSyncIndexRange
                (final (runRemoval firstAttribute unlimited 1 exampleMixed))) 0.
Proof.
  apply (runRemoval_flashes_due firstAttribute unlimited 1 exampleMixed 0
           (dueSprite 0) {| DataView := [10; 3; 7] |} 10 100).
  - simpl. lia.
  - reflexivity.
  - reflexivity.
  - reflexivity.
  - reflexivity.
  - reflexivity.
  - vm_compute. discriminate.
  - intros n. unfold unlimited. lia.
  - reflexivity.
  - simpl. lia.
  - reflexivity.
Defined.

(** The amended C2 on an example: with no time left and a check at every
    step, the mixed pool has one sprite flashed and slots 1 and 2 added
    back. *)
Lemma runRemoval_budget_example :
  (Z.of_nat (length (flashed (trace (runRemoval firstAttribute exhausted 1 exampleMixed)))) <= 1 /\
   forall j,
     spriteAt (final (runRemoval firstAttribute exhausted 1 exampleMixed)) j <>
     spriteAt exampleMixed j ->
     j ∈ flashed (trace (runRemoval firstAttribute exhausted 1 exampleMixed))) /\
  (forall j,
     j ∈ readded (trace (runRemoval firstAttribute exhausted 1 exampleMixed)) <->
     0 <= j <= 2 /\
     (j ∉ visited (trace (runRemoval firstAttribute exhausted 1 exampleMixed))) /\
     exists p, spriteAt exampleMixed j = Some p /\
               toBeRemoved p = true /\ lifecyclePhase p = Rest) /\
  (forall j ts,
     Readd j ts ∈ trace (runRemoval firstAttribute exhausted 1 exampleMixed) ->
     (exists p view, spriteAt exampleMixed j = Some p /\ spriteView p = Some view /\
                     ts = firstAttribute view) /\
     contains (toBeRemovedIndexRange
                 (final (runRemoval firstAttribute exhausted 1 exampleMixed))) j /\
     contains (toBeRemovedTsRange
                 (final (runRemoval firstAttribute exhausted 1 exampleMixed))) ts).
Proof.
  assert (Hsteps : 0 < 1) by lia.
  assert (Hnone : forall n, exhausted n <= 0) by (intros n; unfold exhausted; lia).
  destruct (runRemoval_budget firstAttribute exhausted 1 exampleMixed Hsteps Hnone)
    as [Hcount Hsets].
  split; [exact Hcount|].
  apply (Hsets 0 2 10 100).
  - reflexivity.
  - reflexivity.
  - simpl. lia.
  - left. reflexivity.
Defined.

(** The amended C3 on an example: slot 1 of the mixed pool is not yet due. *)
Lemma runRemoval_keeps_pending_example :
  contains (toBeRemovedIndexRange
              (final (runRemoval firstAttribute unlimited 1 exampleMixed))) 1 /\
  contains (toBeRemovedTsRange
              (final (runRemoval firstAttribute unlimited 1 exampleMixed)))
           (firstAttribute {| DataView := [100; 3; 7] |}) /\
  spriteAt (final (runRemoval firstAttribute unlimited 1 exampleMixed)) 1 =
    Some (laterSprite 1) /\
  queueRemovalTask ∈ trace (runRemoval firstAttribute unlimited 1 exampleMixed).
Proof.
  apply (runRemoval_keeps_pending firstAttribute unlimited 1 exampleMixed 1 (laterSprite 1)).
  - simpl. lia.
  - vm_compute. split; discriminate.
  - reflexivity.
  - reflexivity.
  - reflexivity.
  - reflexivity.
  - reflexivity.
  - reflexivity.
  - left. reflexivity.
Defined.

(** The amended C6 on an example: after a fault of the main loop in slot 0
    the cleanup adds slot 1 back and queues the removal task, and no texture
    sync, the needs-texture-sync range being undefined. *)
Lemma runRemoval_requeues_example :
  (queueTextureSync ∈ trace (runRemoval firstAttribute unlimited 1 exampleFault) <->
   isDefined (needsTextureSyncIndexRange
                (final (runRemoval firstAttribute unlimited 1 exampleFault))) = true) /\
  (queueRemovalTask ∈ trace (runRemoval firstAttribute unlimited 1 exampleFault) <->
   isDefined (toBeRemovedIndexRange
                (final (runRemoval firstAttribute unlimited 1 exampleFault))) = true) /\
  (isDefined (needsTextureSyncIndexRange exampleFault) = true ->
   queueTextureSync ∈ trace (runRemoval firstAttribute unlimited 1 exampleFault)).
Proof.
  apply (runRemoval_requeues firstAttribute unlimited 1 exampleFault 0 1 10 10).
  - reflexivity.
  - reflexivity.
  - simpl. lia.
  - right. reflexivity.
Defined.

(** ** Where the statements as worded fail *)

(** C1 as stated fails on two pools.  In the first the low bound of the
    to-be-removed timestamp range (100 ms) is above the current time (50 ms):
    the invocation only queues a later removal task and returns, and the due
    sprite of slot 0 is left at rest.  In the second the sprite of slot 0
    lacks its view: the invocation throws there, and the due sprite of slot 1
    is left at rest. *)
Lemma dueAreFlashed_stated_fails :
  ~ dueAreFlashed_stated firstAttribute unlimited 1 exampleGated /\
  ~ dueAreFlashed_stated firstAttribute unlimited 1 exampleFault.
Proof.
  split; intros Hclaim.
  - destruct (Hclaim 0 (dueSprite 0) {| DataView := [10; 3; 7] |})
      as (p' & view' & Hp' & _ & _ & _ & Hphase & _);
      try reflexivity; try (simpl; lia); try (vm_compute; discriminate).
    vm_compute in Hp'. injection Hp' as <-. discriminate Hphase.
  - destruct (Hclaim 1 (dueSprite 1) {| DataView := [10; 3; 7] |})
      as (p' & view' & Hp' & _ & _ & _ & Hphase & _);
      try reflexivity; try (simpl; lia); try (vm_compute; discriminate).
    vm_compute in Hp'. injection Hp' as <-. discriminate Hphase.
Qed.

(** C2 as stated fails on two pools.  With [stepsBetweenChecks] zero the
    remainder test never holds, [remaining] is never called, and both sprites
    of the first pool are flashed.  In the second pool the cleanup loop
    throws at the sprite without view of slot 2, before it comes to slot 3,
    whose sprite is marked for removal and at rest, and was not gone through
    by the main loop. *)
Lemma budgetRespected_stated_fails :
  ~ budgetRespected_stated firstAttribute exhausted 0 exampleTwoDue /\
  ~ budgetRespected_stated firstAttribute exhausted 1 exampleCleanupFault.
Proof.
  assert (Hnone : forall n, exhausted n <= 0) by (intros n; unfold exhausted; lia).
  split; intros Hclaim; destruct (Hclaim Hnone) as [Hcount Hsets].
  - vm_compute in Hcount. by apply Hcount.
  - specialize (Hsets 0 3 10 100 eq_refl eq_refl ltac:(simpl; lia) 3).
    destruct Hsets as [_ Hadded].
    assert (Hin : 3 ∈ readded (trace (runRemoval firstAttribute exhausted 1 exampleCleanupFault))).
    { apply Hadded. split; [lia|]. split.
      - vm_compute. intros Hv. by repeat (apply elem_of_cons in Hv as [Hv|Hv]; [done|]);
          apply elem_of_nil in Hv.
      - by exists (laterSprite 3). }
    vm_compute in Hin.
    by repeat (apply elem_of_cons in Hin as [Hin|Hin]; [done|]); apply elem_of_nil in Hin.
Qed.

(** C3 as stated fails on two pools.  In the first the sprite of slot 0 is
    marked for removal and not yet due, but waits for its texture sync: the
    main loop passes over it, and the ranges end undefined with no removal
    task queued.  In the second the cleanup loop throws at slot 2 before it
    comes to the sprite of slot 3, which is at rest and not yet due. *)
Lemma pendingKept_stated_fails :
  ~ pendingKept_stated firstAttribute unlimited 1 exampleSyncing /\
  ~ pendingKept_stated firstAttribute exhausted 1 exampleCleanupFault.
Proof.
  split; intros Hclaim.
  - destruct (Hclaim 0 (syncingSprite 0) {| DataView := [100; 3; 7] |})
      as (Hin & _); try reflexivity; try (simpl; lia); try (vm_compute; split; discriminate).
    vm_compute in Hin. done.
  - destruct (Hclaim 3 (laterSprite 3) {| DataView := [100; 3; 7] |})
      as (Hin & _); try reflexivity; try (simpl; lia); try (vm_compute; split; discriminate).
    vm_compute in Hin. destruct Hin as [_ Hin]. by apply Hin.
Qed.

(** C6 as stated fails on two pools.  In the first the needs-texture-sync
    range is defined at entry and no sprite is flashed; the texture sync is
    queued all the same.  In the second the cleanup loop throws after it has
    added slot 1 back: the to-be-removed index range is defined at the end,
    and the removal task is not queued. *)
Lemma requeues_stated_fails :
  ~ requeues_stated firstAttribute unlimited 1 exampleAlreadyDirty /\
  ~ requeues_stated firstAttribute exhausted 1 exampleCleanupFault.
Proof.
  split; intros Hclaim.
  - destruct (Hclaim 0 0 10 100 eq_refl eq_refl ltac:(simpl; lia)) as [[Hq _] _].
    destruct Hq as [Hundefined _]; [in_trace|]. discriminate Hundefined.
  - destruct (Hclaim 0 3 10 100 eq_refl eq_refl ltac:(simpl; lia)) as [_ [_ Hq]].
    specialize (Hq eq_refl). vm_compute in Hq.
    by repeat (apply elem_of_cons in Hq as [Hq|Hq]; [done|]); apply elem_of_nil in Hq.
Qed.

(** C7 as stated fails on two pools.  In the first the main loop flashes the
    sprite of slot 0 and throws at the sprite without view of slot 1; the
    cleanup loop adds slot 2 back and throws in its turn at the sprite
    without view of slot 3: the sprite of slot 4, at rest and not gone
    through, is not added back, and neither task is queued although the
    needs-texture-sync range and the to-be-removed index range are defined.
    In the second the main loop stops for lack of time after slot 0, and it
    is the cleanup loop that meets the sprite without view, in slot 2: slot 3
    is not added back, and neither task is queued. *)
Lemma faultContained_stated_fails :
  ~ faultContained_stated firstAttribute unlimited 1 exampleCutShort /\
  ~ faultContained_stated firstAttribute exhausted 1 exampleCleanupFault.
Proof.
  split; intros Hclaim.
  - destruct (Hclaim 1 (viewlessSprite 1) eq_refl eq_refl eq_refl)
      as (_ & _ & Hadded & Hsync & _).
    { left. split; [in_trace|by left]. }
    assert (Hin : 4 ∈ readded (trace (runRemoval firstAttribute unlimited 1 exampleCutShort))).
    { apply (Hadded 4 (laterSprite 4) {| DataView := [100; 3; 7] |}); try reflexivity.
      - simpl. lia.
      - vm_compute. intros Hv.
        by repeat (apply elem_of_cons in Hv as [Hv|Hv]; [done|]); apply elem_of_nil in Hv. }
    vm_compute in Hin.
    by repeat (apply elem_of_cons in Hin as [Hin|Hin]; [done|]); apply elem_of_nil in Hin.
  - destruct (Hclaim 2 (viewlessSprite 2) eq_refl eq_refl eq_refl)
      as (_ & _ & _ & Hsync & _).
    { right. split; [in_trace|done]. }
    specialize (Hsync eq_refl). vm_compute in Hsync.
    by repeat (apply elem_of_cons in Hsync as [Hsync|Hsync]; [done|]);
      apply elem_of_nil in Hsync.
Qed.
